(** * Paperboy 3D: the per-frame simulation, embedded and verified

    The development follows the JavaScript sources of the game:

    - [utils.js]      : [checkCollision], [getElementById];
    - [player.js]     : the [Player] class;
    - [controls.js]   : the keyboard mapper [Controls];
    - [ui.js]         : the DOM overlay [UI];
    - [world/*.js]    : the records pushed on the obstacle, mailbox and
                        porch arrays, and [createNewspaper];
    - [game.js]       : the [Game] class and its animation callback.

    Conventions of the embedding.

    - A JavaScript number that holds a coordinate, a size or a time is a
      rational ([Q]) with exact arithmetic: rounding, NaN and the
      infinities of IEEE doubles are outside the model.  The counters
      [score], [papers] and [lives] only ever hold integers and are [Z].
    - Objects are records and every method is a function from the state
      before the call to the state after it.  Every [THREE.Vector3] of
      the simulation is created by [new] or by [clone()], so no two
      records share a vector and value semantics loses nothing.
    - The scene graph, the camera, the lights and the meshes are the
      rendering layer.  Of a mesh only what the simulation writes is
      kept: its position and its visibility.  The heading of the
      player's mesh ([rotation.y], [quaternion]) is computed by the
      rendering library with [atan2]; where the simulation reads it
      back ([throwNewspaper]) it is an input of the event.
    - [console.log] calls of [game.js] are debugging output and are not
      part of the state; the console is modelled where a function is
      specified by what it logs ([getElementById]). *)

From Stdlib Require Import ZArith QArith Qabs Lqa Lia.
From stdpp Require Import gmap strings list.

Local Open Scope Q_scope.

(** ** Numbers *)

(** The comparison operators of JavaScript on finite numbers. *)
Module Number.

Definition ltb (a b : Q) : bool := negb (Qle_bool b a).
Definition leb (a b : Q) : bool := Qle_bool a b.
Definition gtb (a b : Q) : bool := ltb b a.

End Number.

(** [Math.abs], [Math.max] and [Math.min] on finite numbers. *)
Module Math.

Definition abs (a : Q) : Q := Qabs a.
Definition max (a b : Q) : Q := if Number.ltb a b then b else a.
Definition min (a b : Q) : Q := if Number.ltb b a then b else a.

End Math.

(** ** The part of three.js the simulation uses *)

Module THREE.

Record Vector3 : Type := mkVector3 { x : Q; y : Q; z : Q }.

(** [v.add(w)] *)
Definition add (v w : Vector3) : Vector3 :=
  {| x := x v + x w; y := y v + y w; z := z v + z w |}.

(** [v.x = a], [v.y = a], [v.z = a] *)
Definition set_x (a : Q) (v : Vector3) : Vector3 := {| x := a; y := y v; z := z v |}.
Definition set_y (a : Q) (v : Vector3) : Vector3 := {| x := x v; y := a; z := z v |}.
Definition set_z (a : Q) (v : Vector3) : Vector3 := {| x := x v; y := y v; z := a |}.

(** [new THREE.Box3().setFromObject(o)]: the world-space bounding box
    of a mesh, as its two corners. *)
Record Box3 : Type := mkBox3 { min : Vector3; max : Vector3 }.

(** [box.containsPoint(p)] *)
Definition containsPoint (b : Box3) (p : Vector3) : bool :=
  Number.leb (x (min b)) (x p) && Number.leb (x p) (x (max b)) &&
  Number.leb (y (min b)) (y p) && Number.leb (y p) (y (max b)) &&
  Number.leb (z (min b)) (z p) && Number.leb (z p) (z (max b)).

End THREE.

Abbreviation Vector3 := THREE.Vector3.
Abbreviation Box3 := THREE.Box3.
Abbreviation vec3 := THREE.mkVector3.

(** ** World records (world/houses.js, parks.js, streets.js, obstacles.js) *)

(** The [type] tag of the records pushed on the obstacle array. *)
Inductive ObstacleType : Type :=
  hill | car | tree | sign | bench | pond | drain.

#[global] Instance ObstacleType_eq_dec : EqDecision ObstacleType.
Proof. solve_decision. Defined.

Module Obstacle.
Record t : Type := mk {
  position : Vector3; width : Q; height : Q; depth : Q; type : ObstacleType }.
End Obstacle.

Module Mailbox.
Record t : Type := mk { position : Vector3; width : Q; length : Q }.
End Mailbox.

Module Porch.
Record t : Type := mk { position : Vector3; width : Q; length : Q }.
End Porch.

(** ** Newspapers (world/obstacles.js, [createNewspaper]) *)

Module Newspaper.

(** [object_position] is [newspaper.object.position], the position of
    the mesh; [position] is the clone the physics works on. *)
Record t : Type := mk {
  object_position : Vector3;
  velocity : Vector3;
  position : Vector3;
  thrown : bool;
  delivered : bool }.

Definition set_object_position (v : Vector3) (r : t) : t :=
  {| object_position := v; velocity := velocity r; position := position r; thrown := thrown r; delivered := delivered r |}.
Definition set_velocity (v : Vector3) (r : t) : t :=
  {| object_position := object_position r; velocity := v; position := position r; thrown := thrown r; delivered := delivered r |}.
Definition set_position (v : Vector3) (r : t) : t :=
  {| object_position := object_position r; velocity := velocity r; position := v; thrown := thrown r; delivered := delivered r |}.
Definition set_thrown (v : bool) (r : t) : t :=
  {| object_position := object_position r; velocity := velocity r; position := position r; thrown := v; delivered := delivered r |}.
Definition set_delivered (v : bool) (r : t) : t :=
  {| object_position := object_position r; velocity := velocity r; position := position r; thrown := thrown r; delivered := v |}.

End Newspaper.

(** [createNewspaper(scene, x, y, z, velocityX, velocityZ)] *)
Definition createNewspaper (x y z velocityX velocityZ : Q) : Newspaper.t :=
  {| Newspaper.object_position := vec3 x y z;
     Newspaper.velocity := vec3 velocityX 0.2 velocityZ;
     Newspaper.position := vec3 x y z;
     Newspaper.thrown := true;
     Newspaper.delivered := false |}.

(** ** utils.js *)

(** [checkCollision] is duck-typed: it reads [position], [width] and
    [depth] of both arguments. *)
Class Collidable (A : Type) : Type := {
  position_of : A -> Vector3;
  width_of : A -> Q;
  depth_of : A -> Q }.

#[global] Instance Obstacle_Collidable : Collidable Obstacle.t :=
  {| position_of := Obstacle.position;
     width_of := Obstacle.width;
     depth_of := Obstacle.depth |}.

(** [checkCollision(obj1, obj2)] *)
Definition checkCollision {A B : Type} `{Collidable A} `{Collidable B}
    (obj1 : A) (obj2 : B) : bool :=
  let dx := Math.abs (THREE.x (position_of obj1) - THREE.x (position_of obj2)) in
  let dz := Math.abs (THREE.z (position_of obj1) - THREE.z (position_of obj2)) in
  Number.ltb dx ((width_of obj1 / 2 + width_of obj2 / 2) * 0.7) &&
  Number.ltb dz ((depth_of obj1 / 2 + depth_of obj2 / 2) * 0.7).

(** The DOM lookup helper.  The page is the platform's: a document maps
    an id to the element that carries it, and
    [document.getElementById] answers [null] for an id no element
    carries (DOM standard).  The console is the list of messages
    written so far. *)
Module DOM.

Section WithElement.
Context {Element : Type}.

Inductive Value : Type :=
| undefined
| null
| element (e : Element).

(** [!v] is false exactly on an element. *)
Definition truthy (v : Value) : bool :=
  match v with element _ => true | _ => false end.

Definition document_getElementById (document : gmap string Element) (id : string) : Value :=
  match document !! id with
  | Some e => element e
  | None => null
  end.

Definition quote : string := String (Ascii.ascii_of_nat 34) EmptyString.

(** The template literal of the error message. *)
Definition not_found_message (id : string) : string :=
  ("Element with ID " +:+ quote +:+ id +:+ quote +:+ " not found")%string.

(** [getElementById(id)]: the value returned and the console after the call. *)
Definition getElementById (document : gmap string Element) (console : list string)
    (id : string) : Value * list string :=
  let element := document_getElementById document id in
  let console :=
    if negb (truthy element) then console ++ [not_found_message id] else console in
  (element, console).

End WithElement.

Arguments Value : clear implicits.

End DOM.

(** ** player.js *)

Module Player.

(** [object_position] and [object_visible] are [this.object.position]
    and [this.object.visible]. *)
Record t : Type := mk {
  object_position : Vector3;
  object_visible : bool;
  width : Q;
  height : Q;
  depth : Q;
  position : Vector3;
  velocity : Vector3;
  speed : Q;
  canJump : bool;
  isJumping : bool;
  jumpSpeed : Q;
  playerHeight : Q;
  isInvincible : bool;
  invincibleTime : Q;
  blinkTime : Q;
  isVisible : bool }.

Definition set_object_position (v : Vector3) (r : t) : t :=
  {| object_position := v; object_visible := object_visible r; width := width r; height := height r; depth := depth r; position := position r; velocity := velocity r; speed := speed r; canJump := canJump r; isJumping := isJumping r; jumpSpeed := jumpSpeed r; playerHeight := playerHeight r; isInvincible := isInvincible r; invincibleTime := invincibleTime r; blinkTime := blinkTime r; isVisible := isVisible r |}.
Definition set_object_visible (v : bool) (r : t) : t :=
  {| object_position := object_position r; object_visible := v; width := width r; height := height r; depth := depth r; position := position r; velocity := velocity r; speed := speed r; canJump := canJump r; isJumping := isJumping r; jumpSpeed := jumpSpeed r; playerHeight := playerHeight r; isInvincible := isInvincible r; invincibleTime := invincibleTime r; blinkTime := blinkTime r; isVisible := isVisible r |}.
Definition set_position (v : Vector3) (r : t) : t :=
  {| object_position := object_position r; object_visible := object_visible r; width := width r; height := height r; depth := depth r; position := v; velocity := velocity r; speed := speed r; canJump := canJump r; isJumping := isJumping r; jumpSpeed := jumpSpeed r; playerHeight := playerHeight r; isInvincible := isInvincible r; invincibleTime := invincibleTime r; blinkTime := blinkTime r; isVisible := isVisible r |}.
Definition set_velocity (v : Vector3) (r : t) : t :=
  {| object_position := object_position r; object_visible := object_visible r; width := width r; height := height r; depth := depth r; position := position r; velocity := v; speed := speed r; canJump := canJump r; isJumping := isJumping r; jumpSpeed := jumpSpeed r; playerHeight := playerHeight r; isInvincible := isInvincible r; invincibleTime := invincibleTime r; blinkTime := blinkTime r; isVisible := isVisible r |}.
Definition set_canJump (v : bool) (r : t) : t :=
  {| object_position := object_position r; object_visible := object_visible r; width := width r; height := height r; depth := depth r; position := position r; velocity := velocity r; speed := speed r; canJump := v; isJumping := isJumping r; jumpSpeed := jumpSpeed r; playerHeight := playerHeight r; isInvincible := isInvincible r; invincibleTime := invincibleTime r; blinkTime := blinkTime r; isVisible := isVisible r |}.
Definition set_isJumping (v : bool) (r : t) : t :=
  {| object_position := object_position r; object_visible := object_visible r; width := width r; height := height r; depth := depth r; position := position r; velocity := velocity r; speed := speed r; canJump := canJump r; isJumping := v; jumpSpeed := jumpSpeed r; playerHeight := playerHeight r; isInvincible := isInvincible r; invincibleTime := invincibleTime r; blinkTime := blinkTime r; isVisible := isVisible r |}.
Definition set_isInvincible (v : bool) (r : t) : t :=
  {| object_position := object_position r; object_visible := object_visible r; width := width r; height := height r; depth := depth r; position := position r; velocity := velocity r; speed := speed r; canJump := canJump r; isJumping := isJumping r; jumpSpeed := jumpSpeed r; playerHeight := playerHeight r; isInvincible := v; invincibleTime := invincibleTime r; blinkTime := blinkTime r; isVisible := isVisible r |}.
Definition set_invincibleTime (v : Q) (r : t) : t :=
  {| object_position := object_position r; object_visible := object_visible r; width := width r; height := height r; depth := depth r; position := position r; velocity := velocity r; speed := speed r; canJump := canJump r; isJumping := isJumping r; jumpSpeed := jumpSpeed r; playerHeight := playerHeight r; isInvincible := isInvincible r; invincibleTime := v; blinkTime := blinkTime r; isVisible := isVisible r |}.
Definition set_blinkTime (v : Q) (r : t) : t :=
  {| object_position := object_position r; object_visible := object_visible r; width := width r; height := height r; depth := depth r; position := position r; velocity := velocity r; speed := speed r; canJump := canJump r; isJumping := isJumping r; jumpSpeed := jumpSpeed r; playerHeight := playerHeight r; isInvincible := isInvincible r; invincibleTime := invincibleTime r; blinkTime := v; isVisible := isVisible r |}.
Definition set_isVisible (v : bool) (r : t) : t :=
  {| object_position := object_position r; object_visible := object_visible r; width := width r; height := height r; depth := depth r; position := position r; velocity := velocity r; speed := speed r; canJump := canJump r; isJumping := isJumping r; jumpSpeed := jumpSpeed r; playerHeight := playerHeight r; isInvincible := isInvincible r; invincibleTime := invincibleTime r; blinkTime := blinkTime r; isVisible := v |}.

(** The constructor followed by [create()], which places the player at
    [(0, playerHeight, 0)] and copies that position to the mesh. *)
Definition create : t :=
  {| object_position := vec3 0 1 0;
     object_visible := true;
     width := 1;
     height := 2;
     depth := 1.5;
     position := vec3 0 1 0;
     velocity := vec3 0 0 0;
     speed := 0.10;
     canJump := true;
     isJumping := false;
     jumpSpeed := 0.2;
     playerHeight := 1;
     isInvincible := false;
     invincibleTime := 0;
     blinkTime := 0;
     isVisible := true |}.

(** The jump branch of [update]. *)
Definition updateJump (p : t) : t :=
  if isJumping p then
    let p := set_position (THREE.set_y (THREE.y (position p) + THREE.y (velocity p)) (position p)) p in
    let p := set_velocity (THREE.set_y (THREE.y (velocity p) - 0.01) (velocity p)) p in
    if Number.leb (THREE.y (position p)) (playerHeight p) then
      let p := set_position (THREE.set_y (playerHeight p) (position p)) p in
      let p := set_isJumping false p in
      let p := set_velocity (THREE.set_y 0 (velocity p)) p in
      set_canJump true p
    else p
  else p.

(** The invincibility branch of [update]. *)
Definition updateInvincibility (deltaTime : Q) (p : t) : t :=
  if isInvincible p then
    let p := set_invincibleTime (invincibleTime p + deltaTime) p in
    let p := set_blinkTime (blinkTime p + deltaTime) p in
    let p :=
      if Number.gtb (blinkTime p) 0.1 then
        let p := set_blinkTime 0 p in
        let p := set_isVisible (negb (isVisible p)) p in
        set_object_visible (isVisible p) p
      else p in
    if Number.gtb (invincibleTime p) 2 then
      let p := set_isInvincible false p in
      set_object_visible true p
    else p
  else p.

(** [update(deltaTime)] *)
Definition update (deltaTime : Q) (p : t) : t :=
  let p := set_position (THREE.set_x (THREE.x (position p) + THREE.x (velocity p)) (position p)) p in
  let p := set_position (THREE.set_z (THREE.z (position p) + THREE.z (velocity p)) (position p)) p in
  let p := set_position
             (THREE.set_x (Math.max (-15) (Math.min 15 (THREE.x (position p)))) (position p)) p in
  let p := updateJump p in
  let p := set_object_position (position p) p in
  updateInvincibility deltaTime p.

(** [startJump()] *)
Definition startJump (p : t) : t :=
  if negb (isJumping p) then
    let p := set_isJumping true p in
    let p := set_velocity (THREE.set_y (jumpSpeed p) (velocity p)) p in
    set_canJump false p
  else p.

(** [makeInvincible()] *)
Definition makeInvincible (p : t) : t :=
  let p := set_isInvincible true p in
  let p := set_invincibleTime 0 p in
  set_blinkTime 0 p.

(** [reset()] *)
Definition reset (p : t) : t :=
  let p := set_position (vec3 0 (playerHeight p) 0) p in
  let p := set_velocity (vec3 0 0 0) p in
  let p := set_isJumping false p in
  let p := set_canJump true p in
  let p := set_isInvincible false p in
  let p := set_object_position (position p) p in
  set_object_visible true p.

End Player.

#[global] Instance Player_Collidable : Collidable Player.t :=
  {| position_of := Player.position;
     width_of := Player.width;
     depth_of := Player.depth |}.

(** ** ui.js *)

(** The [style.display] values the overlay is given. *)
Inductive Display : Type := flex | none.

#[global] Instance Display_eq_dec : EqDecision Display.
Proof. solve_decision. Defined.

Module UI.

(** The three readouts and the final score hold the [textContent] last
    written; the two screens hold their [style.display]. *)
Record t : Type := mk {
  scoreElement : Z;
  papersElement : Z;
  livesElement : Z;
  finalScoreElement : Z;
  startScreen : Display;
  gameOverScreen : Display }.

Definition set_scoreElement (v : Z) (r : t) : t :=
  {| scoreElement := v; papersElement := papersElement r; livesElement := livesElement r; finalScoreElement := finalScoreElement r; startScreen := startScreen r; gameOverScreen := gameOverScreen r |}.
Definition set_papersElement (v : Z) (r : t) : t :=
  {| scoreElement := scoreElement r; papersElement := v; livesElement := livesElement r; finalScoreElement := finalScoreElement r; startScreen := startScreen r; gameOverScreen := gameOverScreen r |}.
Definition set_livesElement (v : Z) (r : t) : t :=
  {| scoreElement := scoreElement r; papersElement := papersElement r; livesElement := v; finalScoreElement := finalScoreElement r; startScreen := startScreen r; gameOverScreen := gameOverScreen r |}.
Definition set_finalScoreElement (v : Z) (r : t) : t :=
  {| scoreElement := scoreElement r; papersElement := papersElement r; livesElement := livesElement r; finalScoreElement := v; startScreen := startScreen r; gameOverScreen := gameOverScreen r |}.
Definition set_startScreen (v : Display) (r : t) : t :=
  {| scoreElement := scoreElement r; papersElement := papersElement r; livesElement := livesElement r; finalScoreElement := finalScoreElement r; startScreen := v; gameOverScreen := gameOverScreen r |}.
Definition set_gameOverScreen (v : Display) (r : t) : t :=
  {| scoreElement := scoreElement r; papersElement := papersElement r; livesElement := livesElement r; finalScoreElement := finalScoreElement r; startScreen := startScreen r; gameOverScreen := v |}.

(** [update()], with the three counters of the game it reads. *)
Definition update (score papers lives : Z) (u : t) : t :=
  let u := set_scoreElement score u in
  let u := set_papersElement papers u in
  set_livesElement lives u.

(** [hideStartScreen()] *)
Definition hideStartScreen (u : t) : t := set_startScreen none u.

(** [showGameOverScreen()], with the score it reads. *)
Definition showGameOverScreen (score : Z) (u : t) : t :=
  let u := set_gameOverScreen flex u in
  set_finalScoreElement score u.

(** [hideGameOverScreen()] *)
Definition hideGameOverScreen (u : t) : t := set_gameOverScreen none u.

End UI.

(** ** game.js *)

(** What [throwNewspaper] reads from the player's mesh: the unit vector
    [(0, 0, 1)] turned by the mesh's quaternion, and the sine of its
    [rotation.y]. *)
Record Heading : Type := mkHeading {
  playerDirection : Vector3;
  sin_rotation_y : Q }.

Module Game.

(** [walls] is what [updateNewspapers] extracts from the scene: the
    bounding boxes of the children tagged ['wall'].  [keys] is the key
    table of the [Controls] object. *)
Record t : Type := mk {
  walls : list Box3;
  player : Player.t;
  keys : gmap string bool;
  ui : UI.t;
  deltaTime : Q;
  isActive : bool;
  score : Z;
  papers : Z;
  lives : Z;
  obstacles : list Obstacle.t;
  mailboxes : list Mailbox.t;
  porches : list Porch.t;
  newspapers : list Newspaper.t;
  gameTime : Q }.

Definition set_player (v : Player.t) (r : t) : t :=
  {| walls := walls r; player := v; keys := keys r; ui := ui r; deltaTime := deltaTime r; isActive := isActive r; score := score r; papers := papers r; lives := lives r; obstacles := obstacles r; mailboxes := mailboxes r; porches := porches r; newspapers := newspapers r; gameTime := gameTime r |}.
Definition set_keys (v : gmap string bool) (r : t) : t :=
  {| walls := walls r; player := player r; keys := v; ui := ui r; deltaTime := deltaTime r; isActive := isActive r; score := score r; papers := papers r; lives := lives r; obstacles := obstacles r; mailboxes := mailboxes r; porches := porches r; newspapers := newspapers r; gameTime := gameTime r |}.
Definition set_ui (v : UI.t) (r : t) : t :=
  {| walls := walls r; player := player r; keys := keys r; ui := v; deltaTime := deltaTime r; isActive := isActive r; score := score r; papers := papers r; lives := lives r; obstacles := obstacles r; mailboxes := mailboxes r; porches := porches r; newspapers := newspapers r; gameTime := gameTime r |}.
Definition set_deltaTime (v : Q) (r : t) : t :=
  {| walls := walls r; player := player r; keys := keys r; ui := ui r; deltaTime := v; isActive := isActive r; score := score r; papers := papers r; lives := lives r; obstacles := obstacles r; mailboxes := mailboxes r; porches := porches r; newspapers := newspapers r; gameTime := gameTime r |}.
Definition set_isActive (v : bool) (r : t) : t :=
  {| walls := walls r; player := player r; keys := keys r; ui := ui r; deltaTime := deltaTime r; isActive := v; score := score r; papers := papers r; lives := lives r; obstacles := obstacles r; mailboxes := mailboxes r; porches := porches r; newspapers := newspapers r; gameTime := gameTime r |}.
Definition set_score (v : Z) (r : t) : t :=
  {| walls := walls r; player := player r; keys := keys r; ui := ui r; deltaTime := deltaTime r; isActive := isActive r; score := v; papers := papers r; lives := lives r; obstacles := obstacles r; mailboxes := mailboxes r; porches := porches r; newspapers := newspapers r; gameTime := gameTime r |}.
Definition set_papers (v : Z) (r : t) : t :=
  {| walls := walls r; player := player r; keys := keys r; ui := ui r; deltaTime := deltaTime r; isActive := isActive r; score := score r; papers := v; lives := lives r; obstacles := obstacles r; mailboxes := mailboxes r; porches := porches r; newspapers := newspapers r; gameTime := gameTime r |}.
Definition set_lives (v : Z) (r : t) : t :=
  {| walls := walls r; player := player r; keys := keys r; ui := ui r; deltaTime := deltaTime r; isActive := isActive r; score := score r; papers := papers r; lives := v; obstacles := obstacles r; mailboxes := mailboxes r; porches := porches r; newspapers := newspapers r; gameTime := gameTime r |}.
Definition set_newspapers (v : list Newspaper.t) (r : t) : t :=
  {| walls := walls r; player := player r; keys := keys r; ui := ui r; deltaTime := deltaTime r; isActive := isActive r; score := score r; papers := papers r; lives := lives r; obstacles := obstacles r; mailboxes := mailboxes r; porches := porches r; newspapers := v; gameTime := gameTime r |}.
Definition set_gameTime (v : Q) (r : t) : t :=
  {| walls := walls r; player := player r; keys := keys r; ui := ui r; deltaTime := deltaTime r; isActive := isActive r; score := score r; papers := papers r; lives := lives r; obstacles := obstacles r; mailboxes := mailboxes r; porches := porches r; newspapers := newspapers r; gameTime := v |}.

(** [this.ui.update()] *)
Definition ui_update (g : t) : t :=
  set_ui (UI.update (score g) (papers g) (lives g) (ui g)) g.

(** The key table [Controls] starts with. *)
Definition initial_keys : gmap string bool :=
  list_to_map
    [("ArrowUp", false); ("ArrowDown", false); ("ArrowLeft", false);
     ("ArrowRight", false); ("w", false); ("a", false); ("s", false);
     ("d", false); (" ", false)]%string.

(** The constructor followed by [init()].  The generated world (the
    three arrays the generator returns and the walls in the scene) and
    the overlay of the page are given. *)
Definition init (scene_walls : list Box3) (world_obstacles : list Obstacle.t)
    (world_mailboxes : list Mailbox.t) (world_porches : list Porch.t)
    (page : UI.t) : t :=
  {| walls := scene_walls;
     player := Player.create;
     keys := initial_keys;
     ui := page;
     deltaTime := 0;
     isActive := false;
     score := 0;
     papers := 100;
     lives := 3;
     obstacles := world_obstacles;
     mailboxes := world_mailboxes;
     porches := world_porches;
     newspapers := [];
     gameTime := 0 |}.

(** [startGame()] *)
Definition startGame (g : t) : t :=
  let g := set_isActive true g in
  let g := set_ui (UI.hideStartScreen (ui g)) g in
  let g := set_score 0 g in
  let g := set_papers 100 g in
  let g := set_lives 3 g in
  ui_update g.

(** [restartGame()] *)
Definition restartGame (g : t) : t :=
  let g := set_player (Player.reset (player g)) g in
  let g := set_isActive true g in
  let g := set_score 0 g in
  let g := set_papers 100 g in
  let g := set_lives 3 g in
  let g := set_gameTime 0 g in
  let g := set_newspapers [] g in
  let g := ui_update g in
  set_ui (UI.hideGameOverScreen (ui g)) g.

(** [endGame()] *)
Definition endGame (g : t) : t :=
  let g := set_isActive false g in
  set_ui (UI.showGameOverScreen (score g) (ui g)) g.

(** [createNewspaper(x, y, z, velocityX, velocityZ)] *)
Definition createNewspaper (x y z velocityX velocityZ : Q) (g : t) : t :=
  if (papers g <=? 0)%Z then g
  else
    let g := set_papers (papers g - 1)%Z g in
    let g := ui_update g in
    let newspaper := createNewspaper x y z velocityX velocityZ in
    set_newspapers (newspapers g ++ [newspaper]) g.

(** [throwNewspaper()] *)
Definition throwNewspaper (h : Heading) (g : t) : t :=
  let throwSide : Q := if Number.gtb (sin_rotation_y h) 0 then -1 else 1 in
  let throwDirection :=
    vec3 (THREE.z (playerDirection h) * throwSide) 0
         (- THREE.x (playerDirection h) * throwSide) in
  createNewspaper
    (THREE.x (Player.position (player g)) + THREE.x throwDirection * 0.5)
    (THREE.y (Player.position (player g)) + 1)
    (THREE.z (Player.position (player g)) + THREE.z throwDirection * 0.5)
    (THREE.x throwDirection * 0.5)
    (THREE.z throwDirection * 0.5)
    g.

(** [isPlayerOnHill()] *)
Fixpoint onHillAmong (p : Player.t) (obs : list Obstacle.t) : bool :=
  match obs with
  | [] => false
  | obstacle :: rest =>
    if decide (Obstacle.type obstacle = hill) then
      let dx := Math.abs (THREE.x (Player.position p) - THREE.x (Obstacle.position obstacle)) in
      let dz := Math.abs (THREE.z (Player.position p) - THREE.z (Obstacle.position obstacle)) in
      if Number.ltb dx (Obstacle.width obstacle / 2) &&
         Number.ltb dz (Obstacle.depth obstacle / 2)
      then true
      else onHillAmong p rest
    else onHillAmong p rest
  end.

Definition isPlayerOnHill (g : t) : bool := onHillAmong (player g) (obstacles g).

(** The test of the loop of [checkObstacleCollisions]. *)
Definition hits (p : Player.t) (obstacle : Obstacle.t) : bool :=
  let dx := Math.abs (THREE.x (Player.position p) - THREE.x (Obstacle.position obstacle)) in
  let dz := Math.abs (THREE.z (Player.position p) - THREE.z (Obstacle.position obstacle)) in
  Number.ltb dx ((Player.width p / 2 + Obstacle.width obstacle / 2) * 0.7) &&
  Number.ltb dz ((Player.depth p / 2 + Obstacle.depth obstacle / 2) * 0.7).

(** The body of the branch taken on a collision. *)
Definition collide (g : t) : t :=
  let g := set_score (score g - 5)%Z g in
  let g := set_lives (lives g - 1)%Z g in
  let g := ui_update g in
  let g := set_player (Player.makeInvincible (player g)) g in
  if (lives g <=? 0)%Z then endGame g else g.

(** The loop of [checkObstacleCollisions] over the obstacles left to
    visit; the boolean is the value returned. *)
Fixpoint scanObstacles (obs : list Obstacle.t) (g : t) : t * bool :=
  match obs with
  | [] => (g, false)
  | obstacle :: rest =>
    if decide (Obstacle.type obstacle = hill) then scanObstacles rest g
    else if hits (player g) obstacle then (collide g, true)
    else scanObstacles rest g
  end.

(** [checkObstacleCollisions()] *)
Definition checkObstacleCollisions (g : t) : t * bool :=
  if Player.isInvincible (player g) then (g, false)
  else scanObstacles (obstacles g) g.

(** *** [updateNewspapers] *)

(** The loop over the walls: the first wall that contains the new
    position puts the newspaper back where it was and grounds it. *)
Fixpoint scanWalls (ws : list Box3) (prevPos : Vector3) (n : Newspaper.t) : Newspaper.t :=
  match ws with
  | [] => n
  | wall :: rest =>
    if THREE.containsPoint wall (Newspaper.position n) then
      let n := Newspaper.set_position prevPos n in
      Newspaper.set_thrown false n
    else scanWalls rest prevPos n
  end.

(** The test of the mailbox loop. *)
Definition inMailboxZone (n : Newspaper.t) (mailbox : Mailbox.t) : bool :=
  let dx := Math.abs (THREE.x (Newspaper.position n) - THREE.x (Mailbox.position mailbox)) in
  let dz := Math.abs (THREE.z (Newspaper.position n) - THREE.z (Mailbox.position mailbox)) in
  let dy := Math.abs (THREE.y (Newspaper.position n) - 1.2) in
  Number.ltb dx 0.75 && Number.ltb dz 0.75 && Number.ltb dy 1.0.

(** The test of the porch loop. *)
Definition inPorchZone (n : Newspaper.t) (porch : Porch.t) : bool :=
  let dx := Math.abs (THREE.x (Newspaper.position n) - THREE.x (Porch.position porch)) in
  let dz := Math.abs (THREE.z (Newspaper.position n) - THREE.z (Porch.position porch)) in
  Number.ltb dx (Porch.width porch) && Number.ltb dz (Porch.length porch) &&
  Number.ltb (THREE.y (Newspaper.position n)) 0.5.

(** The body of a delivery: the newspaper comes to rest at height
    [restY] and the game earns [points]. *)
Definition deliver (restY : Q) (points : Z) (g : t) (n : Newspaper.t) : t * Newspaper.t :=
  let n := Newspaper.set_delivered true n in
  let n := Newspaper.set_thrown false n in
  let n := Newspaper.set_velocity (vec3 0 0 0) n in
  let n := Newspaper.set_position (THREE.set_y restY (Newspaper.position n)) n in
  let g := set_score (score g + points)%Z g in
  let g := ui_update g in
  (g, n).

(** The mailbox loop, left at the first mailbox that takes the newspaper. *)
Fixpoint scanMailboxes (ms : list Mailbox.t) (g : t) (n : Newspaper.t) : t * Newspaper.t :=
  match ms with
  | [] => (g, n)
  | mailbox :: rest =>
    if inMailboxZone n mailbox then deliver 1.2 20 g n
    else scanMailboxes rest g n
  end.

(** The porch loop, left at the first porch that takes the newspaper. *)
Fixpoint scanPorches (ps : list Porch.t) (g : t) (n : Newspaper.t) : t * Newspaper.t :=
  match ps with
  | [] => (g, n)
  | porch :: rest =>
    if inPorchZone n porch then deliver 0.2 10 g n
    else scanPorches rest g n
  end.

(** Gravity and the move that open the airborne branch. *)
Definition fall (n : Newspaper.t) : Newspaper.t :=
  let n := Newspaper.set_velocity
             (THREE.set_y (THREE.y (Newspaper.velocity n) - 0.015) (Newspaper.velocity n)) n in
  Newspaper.set_position (THREE.add (Newspaper.position n) (Newspaper.velocity n)) n.

(** The ground test that closes the airborne branch. *)
Definition groundCollision (n : Newspaper.t) : Newspaper.t :=
  if Number.leb (THREE.y (Newspaper.position n)) 0.05 then
    let n := Newspaper.set_position (THREE.set_y 0.05 (Newspaper.position n)) n in
    let n := Newspaper.set_thrown false n in
    Newspaper.set_velocity (vec3 0 0 0) n
  else n.

(** The position the delivery tests of this frame compare: after the
    move, and after a wall has put the newspaper back. *)
Definition moved (g : t) (n : Newspaper.t) : Newspaper.t :=
  scanWalls (walls g) (Newspaper.position n) (fall n).

(** The branch [if (newspaper.thrown && !newspaper.delivered)]. *)
Definition updateAirborne (g : t) (n : Newspaper.t) : t * Newspaper.t :=
  let prevPos := Newspaper.position n in
  let n := fall n in
  let n := scanWalls (walls g) prevPos n in
  let '(g, n) := scanMailboxes (mailboxes g) g n in
  let '(g, n) := scanPorches (porches g) g n in
  let n := groundCollision n in
  let n := Newspaper.set_object_position (Newspaper.position n) n in
  (g, n).

(** The first half of the loop body, on the newspaper at hand. *)
Definition updateNewspaper (g : t) (n : Newspaper.t) : t * Newspaper.t :=
  if Newspaper.thrown n && negb (Newspaper.delivered n) then updateAirborne g n
  else (g, n).

(** The test of the removal that ends the loop body. *)
Definition expired (g : t) (n : Newspaper.t) : bool :=
  negb (Newspaper.thrown n) && negb (Newspaper.delivered n) &&
  Number.gtb (gameTime g) 30.

(** One iteration of the loop, at index [i].  The newspaper is an object
    of the array mutated in place: it is written back at [i] before the
    removal test.  Reading past the end of the array would raise a
    TypeError; [updateNewspapersFrom_spec] shows that the loop never
    does, and the state is returned as it is there. *)
Definition updateNewspaperAt (i : nat) (g : t) : t :=
  match newspapers g !! i with
  | None => g
  | Some newspaper =>
    let '(g, newspaper) := updateNewspaper g newspaper in
    let g := set_newspapers (<[i := newspaper]> (newspapers g)) g in
    if expired g newspaper then set_newspapers (delete i (newspapers g)) g
    else g
  end.

(** The loop [for (let i = k - 1; i >= 0; i--)]. *)
Fixpoint updateNewspapersFrom (k : nat) (g : t) : t :=
  match k with
  | O => g
  | S i => updateNewspapersFrom i (updateNewspaperAt i g)
  end.

(** [updateNewspapers()] *)
Definition updateNewspapers (g : t) : t :=
  if (length (newspapers g) =? 0)%nat then g
  else updateNewspapersFrom (length (newspapers g)) g.

(** *** [animate] *)

(** The callback of one animation frame; [dt] is what
    [this.clock.getDelta()] returns. *)
Definition animate (dt : Q) (g : t) : t :=
  let g := set_deltaTime dt g in
  if isActive g then
    let g := set_gameTime (gameTime g + deltaTime g) g in
    let '(g, hit) := checkObstacleCollisions g in
    let g := if negb hit then set_player (Player.update (deltaTime g) (player g)) g else g in
    let g := updateNewspapers g in
    if (papers g <=? 0)%Z && (length (newspapers g) =? 0)%nat && (lives g >? 0)%Z
    then endGame g
    else g
  else g.

End Game.

(** ** controls.js *)

Module Controls.

(** [handleSpecialKeyActions(key)]; [h] is the heading of the player's
    mesh at the time of the event. *)
Definition handleSpecialKeyActions (key : string) (h : Heading) (g : Game.t) : Game.t :=
  if negb (Game.isActive g) then g
  else
    let g :=
      if (bool_decide (key = "ArrowUp"%string) || bool_decide (key = "w"%string)) &&
         Player.canJump (Game.player g) && Game.isPlayerOnHill g
      then
        let g := Game.set_player (Player.startJump (Game.player g)) g in
        let g := Game.set_score (Game.score g + 20)%Z g in
        Game.ui_update g
      else g in
    if bool_decide (key = " "%string) && (Game.papers g >? 0)%Z
    then Game.throwNewspaper h g
    else g.

(** [handleKeyDown(e)] *)
Definition handleKeyDown (key : string) (h : Heading) (g : Game.t) : Game.t :=
  if bool_decide (is_Some (Game.keys g !! key)) then
    let g := Game.set_keys (<[key := true]> (Game.keys g)) g in
    handleSpecialKeyActions key h g
  else g.

(** [handleKeyUp(e)] *)
Definition handleKeyUp (key : string) (g : Game.t) : Game.t :=
  if bool_decide (is_Some (Game.keys g !! key)) then
    Game.set_keys (<[key := false]> (Game.keys g)) g
  else g.

(** [this.keys.k] *)
Definition pressed (g : Game.t) (k : string) : bool :=
  default false (Game.keys g !! k).

(** [update()], run by the 16 ms interval. *)
Definition update (g : Game.t) : Game.t :=
  if negb (Game.isActive g) then g
  else
    let set_velocity v g :=
      Game.set_player (Player.set_velocity v (Game.player g)) g in
    let velocity g := Player.velocity (Game.player g) in
    let speed g := Player.speed (Game.player g) in
    let g := set_velocity (THREE.set_x 0 (velocity g)) g in
    let g := set_velocity (THREE.set_z (speed g) (velocity g)) g in
    let g :=
      if pressed g "ArrowLeft" || pressed g "a"
      then set_velocity (THREE.set_x (speed g) (velocity g)) g else g in
    if pressed g "ArrowRight" || pressed g "d"
    then set_velocity (THREE.set_x (- speed g) (velocity g)) g else g.

End Controls.

(** ** The game as a transition system (main.js)

    [main.js] builds the game, calls [init()] and starts the animation
    loop; from then on the browser runs one callback at a time. *)

Inductive Event : Type :=
| Frame (dt : Q)                      (* requestAnimationFrame: [animate] *)
| Interval                            (* setInterval: [Controls.update] *)
| KeyDown (key : string) (h : Heading) (* window keydown *)
| KeyUp (key : string)                (* window keyup *)
| ClickStart                          (* click on the start button *)
| ClickRestart.                       (* click on the restart button *)

Definition handle (e : Event) (g : Game.t) : Game.t :=
  match e with
  | Frame dt => Game.animate dt g
  | Interval => Controls.update g
  | KeyDown key h => Controls.handleKeyDown key h g
  | KeyUp key => Controls.handleKeyUp key g
  | ClickStart => Game.startGame g
  | ClickRestart => Game.restartGame g
  end.

(** The clock never runs backwards, and a button is clicked only while
    the screen that carries it is displayed. *)
Definition enabled (e : Event) (g : Game.t) : Prop :=
  match e with
  | Frame dt => 0 <= dt
  | ClickStart => UI.startScreen (Game.ui g) = flex
  | ClickRestart => UI.gameOverScreen (Game.ui g) = flex
  | _ => True
  end.

(** The page shows the start screen and hides the game-over screen when
    it loads. *)
Definition loaded (g : Game.t) : Prop :=
  exists scene_walls world_obstacles world_mailboxes world_porches page,
    g = Game.init scene_walls world_obstacles world_mailboxes world_porches page /\
    UI.startScreen page = flex /\ UI.gameOverScreen page = none.

Inductive Reachable : Game.t -> Prop :=
| reach_loaded g : loaded g -> Reachable g
| reach_handle e g : Reachable g -> enabled e g -> Reachable (handle e g).

(** A run of events, first event first. *)
Fixpoint run (es : list Event) (g : Game.t) : Game.t :=
  match es with
  | [] => g
  | e :: es' => run es' (handle e g)
  end.

Fixpoint runnable (es : list Event) (g : Game.t) : Prop :=
  match es with
  | [] => True
  | e :: es' => enabled e g /\ runnable es' (handle e g)
  end.


(** ** The loop of [updateNewspapers], seen from the array

    The newspapers are visited last to first.  [rs] holds the ones still
    to visit, the next one first, and [kept] the ones already visited
    and not removed, in the order of the array. *)
Fixpoint sweep (rs : list Newspaper.t) (g : Game.t) (kept : list Newspaper.t)
    : Game.t * list Newspaper.t :=
  match rs with
  | [] => (g, kept)
  | n :: rs' =>
    let '(g1, n') := Game.updateNewspaper g n in
    sweep rs' g1 (if Game.expired g1 n' then kept else n' :: kept)
  end.

(** ** The properties of the specification *)

(** A newspaper in flight. *)
Definition airborne (n : Newspaper.t) : Prop :=
  Newspaper.thrown n = true /\ Newspaper.delivered n = false.

(** The delivery zone of a mailbox: |dx| < 0.75, |dz| < 0.75,
    |y - 1.2| < 1.0. *)
Definition withinMailboxZone (p : Vector3) (mailbox : Mailbox.t) : Prop :=
  Qabs (THREE.x p - THREE.x (Mailbox.position mailbox)) < 0.75 /\
  Qabs (THREE.z p - THREE.z (Mailbox.position mailbox)) < 0.75 /\
  Qabs (THREE.y p - 1.2) < 1.0.


(** The player overlaps an obstacle, with the 0.7 tolerance. *)
Definition overlaps (p : Player.t) (obstacle : Obstacle.t) : Prop :=
  Qabs (THREE.x (Player.position p) - THREE.x (Obstacle.position obstacle))
    < (Player.width p / 2 + Obstacle.width obstacle / 2) * 0.7 /\
  Qabs (THREE.z (Player.position p) - THREE.z (Obstacle.position obstacle))
    < (Player.depth p / 2 + Obstacle.depth obstacle / 2) * 0.7.

(** The lane the player is kept in. *)
Definition inLane (p : Player.t) : Prop :=
  -15 <= THREE.x (Player.position p) /\ THREE.x (Player.position p) <= 15.

(** The points one pass of the loop body gives for a newspaper. *)
Definition awarded (g : Game.t) (n : Newspaper.t) : Z :=
  (Game.score (Game.updateNewspaper g n).1 - Game.score g)%Z.

(** The points a newspaper gives over successive frames, one entry per
    frame; [gs] are the states of the game at those frames. *)
Fixpoint awardedOver (gs : list Game.t) (n : Newspaper.t) : list Z :=
  match gs with
  | [] => []
  | g :: gs' => awarded g n :: awardedOver gs' (Game.updateNewspaper g n).2
  end.

Definition total (points : list Z) : Z := foldr Z.add 0%Z points.

Definition nonzero (points : list Z) : list Z :=
  filter (fun p => p <> 0%Z) points.

(** ** Sample pages, worlds and states *)

Definition page0 : UI.t :=
  {| UI.scoreElement := 0; UI.papersElement := 100; UI.livesElement := 3;
     UI.finalScoreElement := 0; UI.startScreen := flex; UI.gameOverScreen := none |}.

(** A car parked right ahead of the start position. *)
Definition parked_car : Obstacle.t :=
  {| Obstacle.position := vec3 0 0 0.5; Obstacle.width := 2;
     Obstacle.height := 1.7; Obstacle.depth := 4; Obstacle.type := car |}.


(** An empty street, loaded and then started. *)
Definition empty_street : Game.t := Game.init [] [] [] [] page0.

Definition out_of_papers : Game.t :=
  Game.set_papers 0 (Game.startGame empty_street).

(** What a pass over the newspapers may change: the score, the three
    readouts of the overlay and the newspaper array, which never grows. *)
Definition newspapers_pass (g g' : Game.t) : Prop :=
  exists s u l,
    g' = Game.set_newspapers l (Game.set_ui u (Game.set_score s g)) /\
    (length l <= length (Game.newspapers g))%nat /\
    UI.startScreen u = UI.startScreen (Game.ui g) /\
    UI.gameOverScreen u = UI.gameOverScreen (Game.ui g).

(** A newspaper that lies delivered: the flags and the velocity a
    delivery leaves, and the loop body passes it by in every state. *)
Definition lies_delivered (n : Newspaper.t) : Prop :=
  Newspaper.delivered n = true /\
  Newspaper.thrown n = false /\
  Newspaper.velocity n = vec3 0 0 0 /\
  forall g : Game.t, Game.updateNewspaper g n = (g, n) /\ Game.expired g n = false.

(** A house front as [createHouse] lays it out: the mailbox stands at
    the corner of the porch, inside the porch's delivery zone. *)
Definition corner_mailbox : Mailbox.t :=
  {| Mailbox.position := vec3 (-8) 0 12; Mailbox.width := 1; Mailbox.length := 0.5 |}.

Definition front_porch : Porch.t :=
  {| Porch.position := vec3 (-11) 0.2 13; Porch.width := 6; Porch.length := 3 |}.

(** A newspaper about to come down next to that mailbox, at porch height. *)
Definition low_throw : Newspaper.t :=
  {| Newspaper.object_position := vec3 (-8.5) 0.4 12;
     Newspaper.velocity := vec3 0.5 (-0.085) 0;
     Newspaper.position := vec3 (-8.5) 0.4 12;
     Newspaper.thrown := true;
     Newspaper.delivered := false |}.

(** The same throw towards the far side of the porch, away from the mailbox. *)
Definition porch_throw : Newspaper.t :=
  {| Newspaper.object_position := vec3 (-12.5) 0.4 14;
     Newspaper.velocity := vec3 0.5 (-0.085) 0;
     Newspaper.position := vec3 (-12.5) 0.4 14;
     Newspaper.thrown := true;
     Newspaper.delivered := false |}.

Definition house_front (n : Newspaper.t) : Game.t :=
  Game.set_newspapers [n]
    (Game.startGame (Game.init [] [] [corner_mailbox] [front_porch] page0)).

(** The three arrays the world generator returned are the same in both
    states: the same records in the same order. *)
Definition same_world (g g' : Game.t) : Prop :=
  Game.obstacles g' = Game.obstacles g /\
  Game.mailboxes g' = Game.mailboxes g /\
  Game.porches g' = Game.porches g.

(** What holds of every state the game can reach. *)
Definition invariant (g : Game.t) : Prop :=
  (0 <= Game.papers g)%Z /\
  (Z.of_nat (length (Game.newspapers g)) + Game.papers g <= 100)%Z /\
  (Game.isActive g = true -> (0 < Game.lives g)%Z) /\
  inLane (Game.player g) /\
  (UI.startScreen (Game.ui g) = flex ->
     Game.isActive g = false /\ Game.newspapers g = [] /\
     UI.gameOverScreen (Game.ui g) = none).

(** The heading of the mesh while the player rides straight ahead:
    [rotation.y] is 0 and the direction is the z axis. *)
Definition straight_ahead : Heading :=
  {| playerDirection := vec3 0 0 1; sin_rotation_y := 0 |}.

(** The game is started and the space bar pressed 51 times. *)
Definition many_throws : Game.t :=
  run (ClickStart :: repeat (KeyDown " " straight_ahead) 51) empty_street.

(** The player stands at the parked car: two collisions, each followed
    by a frame that ends the invincibility, leave one life. *)
Definition last_life : Game.t :=
  run [ClickStart; Frame 1; Frame 3; Frame 1; Frame 3]
      (Game.init [] [parked_car] [] [] page0).

(** A page on which the final-score element is missing; an element is
    identified by its tag. *)
Definition page_without_final_score : gmap string string :=
  list_to_map
    [("score", "span"); ("papers", "span"); ("lives", "span");
     ("start-screen", "div"); ("start-button", "button");
     ("game-over", "div"); ("restart-button", "button")]%string.

(** Thirty-one seconds into the game a newspaper is thrown; 33 frames
    later it is still in the air, about to touch the ground. *)
Definition late_throw : Game.t :=
  run (ClickStart :: Frame 31 :: KeyDown " " straight_ahead :: repeat (Frame 0.016) 33)
      empty_street.

(** * More of the code

    ** utils.js: the random helpers *)

From Stdlib Require Import Qround.

(** [Math.floor] and [Math.ceil] on finite numbers. *)
Definition Math_floor (a : Q) : Q := inject_Z (Qfloor a).
Definition Math_ceil (a : Q) : Q := inject_Z (Qceiling a).

(** [getRandomNumber(min, max)]; [random] is what [Math.random()]
    returns, a number of [0, 1). *)
Definition getRandomNumber (random min max : Q) : Q :=
  min + random * (max - min).

(** [getRandomInt(min, max)] *)
Definition getRandomInt (random min max : Q) : Q :=
  let min := Math_ceil min in
  let max := Math_floor max in
  Math_floor (random * (max - min + 1)) + min.

(** The player stands on an obstacle's footprint: within half its width
    and half its depth. *)
Definition standsOn (p : Player.t) (obstacle : Obstacle.t) : Prop :=
  Qabs (THREE.x (Player.position p) - THREE.x (Obstacle.position obstacle))
    < Obstacle.width obstacle / 2 /\
  Qabs (THREE.z (Player.position p) - THREE.z (Obstacle.position obstacle))
    < Obstacle.depth obstacle / 2.

(** ** [updateNewspapers] as a whole *)

(** The newspaper one pass of the loop body leaves. *)
Definition updated (g : Game.t) (n : Newspaper.t) : Newspaper.t :=
  (Game.updateNewspaper g n).2.

(** Two states with the same walls, mailboxes, porches and clock. *)
Definition same_field (g g' : Game.t) : Prop :=
  Game.walls g' = Game.walls g /\
  Game.mailboxes g' = Game.mailboxes g /\
  Game.porches g' = Game.porches g /\
  Game.gameTime g' = Game.gameTime g.

(** A newspaper at rest that no mailbox or porch took. *)
Definition littered (n : Newspaper.t) : Prop :=
  Newspaper.thrown n = false /\ Newspaper.delivered n = false.

(** ** The player over several updates *)

(** Successive calls of [update], one per delta time. *)
Definition Player_updates (dts : list Q) (p : Player.t) : Player.t :=
  fold_left (fun p dt => Player.update dt p) dts p.

(** What the jump branch of [update] reads and writes: the height, the
    vertical velocity, [isJumping], [canJump] and [playerHeight]. *)
Definition jumpView (p : Player.t) : Q * Q * bool * bool * Q :=
  (THREE.y (Player.position p), THREE.y (Player.velocity p),
   Player.isJumping p, Player.canJump p, Player.playerHeight p).

(** The jump branch on that view. *)
Definition jumpStep (v : Q * Q * bool * bool * Q) : Q * Q * bool * bool * Q :=
  let '(y, vy, jumping, canJump, ground) := v in
  if jumping then
    if Number.leb (y + vy) ground then (ground, 0, false, true, ground)
    else (y + vy, vy - 0.01, true, canJump, ground)
  else v.

(** The view is that of a jump in progress, above the ground and no
    higher than 3.1. *)
Definition inTheAir (v : Q * Q * bool * bool * Q) : bool :=
  let '(y, vy, jumping, canJump, ground) := v in
  jumping && negb canJump && Number.ltb 1 y && Number.leb y 3.1.

(** The next [k] steps of the view are all in the air. *)
Fixpoint airborneFor (k : nat) (v : Q * Q * bool * bool * Q) : bool :=
  match k with
  | O => true
  | S k' => inTheAir (jumpStep v) && airborneFor k' (jumpStep v)
  end.

(** The player stands on the ground at height 1, ready to jump. *)
Definition standing (p : Player.t) : Prop :=
  Player.isJumping p = false /\
  THREE.y (Player.position p) = 1 /\
  Player.playerHeight p = 1 /\
  Player.jumpSpeed p = 0.2.

(** The constants the constructor gives the player. *)
Definition Player_constants (p : Player.t) : Prop :=
  Player.width p = 1 /\ Player.height p = 2 /\ Player.depth p = 1.5 /\
  Player.speed p = 0.10 /\ Player.jumpSpeed p = 0.2 /\ Player.playerHeight p = 1.

(** The flags and the height of a jump agree. *)
Definition jump_consistent (p : Player.t) : Prop :=
  Player.canJump p = negb (Player.isJumping p) /\
  (Player.isJumping p = false ->
     THREE.y (Player.position p) = Player.playerHeight p /\
     THREE.y (Player.velocity p) = 0) /\
  Player.playerHeight p <= THREE.y (Player.position p).

(** The velocities the keyboard mapper gives. *)
Definition steered (p : Player.t) : Prop :=
  (THREE.z (Player.velocity p) = 0 \/ THREE.z (Player.velocity p) = Player.speed p) /\
  (THREE.x (Player.velocity p) = 0 \/ THREE.x (Player.velocity p) = Player.speed p \/
   THREE.x (Player.velocity p) = - Player.speed p).

Definition sum (dts : list Q) : Q := foldr Qplus 0 dts.

(** What the invincibility branch of [update] reads and writes:
    [isInvincible], [invincibleTime], [blinkTime], [isVisible] and the
    visibility of the mesh. *)
Definition invincibilityView (p : Player.t) : bool * Q * Q * bool * bool :=
  (Player.isInvincible p, Player.invincibleTime p, Player.blinkTime p,
   Player.isVisible p, Player.object_visible p).

(** The invincibility branch on that view. *)
Definition invincibilityStep (dt : Q) (v : bool * Q * Q * bool * bool)
    : bool * Q * Q * bool * bool :=
  let '(invincible, time, blink, visible, shown) := v in
  if invincible then
    let time := time + dt in
    let blink := blink + dt in
    let '(blink, visible, shown) :=
      if Number.gtb blink 0.1 then (0, negb visible, negb visible)
      else (blink, visible, shown) in
    if Number.gtb time 2 then (false, time, blink, visible, true)
    else (true, time, blink, visible, shown)
  else v.

(** ** What the callbacks do to the player *)

(** The ways a callback of the game changes the player: not at all, by
    [update], by [makeInvincible] (a collision), by [startJump], by
    [reset] (a restart), or by the lateral and forward velocity the
    keyboard mapper writes. *)
Inductive player_step (p : Player.t) : Player.t -> Prop :=
| step_none : player_step p p
| step_update dt : player_step p (Player.update dt p)
| step_collision : player_step p (Player.makeInvincible p)
| step_jump : player_step p (Player.startJump p)
| step_reset : player_step p (Player.reset p)
| step_steer a :
    a = 0 \/ a = Player.speed p \/ a = - Player.speed p ->
    player_step p
      (Player.set_velocity (vec3 a (THREE.y (Player.velocity p)) (Player.speed p)) p).

(** A state just after a collision with the parked car. *)
Definition just_hit : Game.t :=
  run [ClickStart; Frame 1] (Game.init [] [parked_car] [] [] page0).

(** What [update] never writes, and the forward position it writes. *)
Definition steeringView (p : Player.t) : Q * Q * Q * Q * Q * Q * Q * Q :=
  (Player.width p, Player.height p, Player.depth p, Player.speed p,
   Player.jumpSpeed p, THREE.x (Player.velocity p), THREE.z (Player.velocity p),
   THREE.z (Player.position p)).

(** What holds of the player in every state the game can reach. *)
Definition player_invariant (p : Player.t) : Prop :=
  Player_constants p /\ jump_consistent p /\ steered p /\
  0 <= THREE.z (Player.position p).

(** ** More of what holds in every reachable state *)

(** The three readouts of the overlay show the three counters. *)
Definition synced (g : Game.t) : Prop :=
  UI.scoreElement (Game.ui g) = Game.score g /\
  UI.papersElement (Game.ui g) = Game.papers g /\
  UI.livesElement (Game.ui g) = Game.lives g.

(** The simulation is the same in both states: all but the key table
    and the last delta time. *)
Definition same_simulation (g g' : Game.t) : Prop :=
  exists keys' dt', g' = Game.set_keys keys' (Game.set_deltaTime dt' g).

(** The bounds of the lives and of the score. *)
Definition counters_bounded (g : Game.t) : Prop :=
  (0 <= Game.lives g <= 3)%Z /\ (-5 * (3 - Game.lives g) <= Game.score g)%Z.

(** ** A newspaper over successive passes *)

(** The newspaper after successive passes of the loop body, one per
    frame; [gs] are the states of the game at those frames. *)
Definition updatedOver (gs : list Game.t) (n : Newspaper.t) : Newspaper.t :=
  fold_left (fun n g => updated g n) gs n.

(** A pass that neither delivers nor grounds a newspaper leaves it where
    gravity and its velocity take it. *)
Definition glide (n : Newspaper.t) : Newspaper.t :=
  Newspaper.set_object_position (Newspaper.position (Game.fall n)) (Game.fall n).

(** The house front once the throw towards the porch has landed. *)
Definition porch_delivery : Game.t := Game.updateNewspapers (house_front porch_throw).

Definition delivered_paper : Newspaper.t := updated (house_front porch_throw) porch_throw.
(** * Facts

    ** Numbers *)

Lemma Number_ltb_lt (a b : Q) : Number.ltb a b = true <-> a < b.
Proof.
  unfold Number.ltb. rewrite negb_true_iff. split; intros H.
  - apply Qnot_le_lt. intros Hle. apply Qle_bool_iff in Hle. congruence.
  - destruct (Qle_bool b a) eqn:E; [|reflexivity].
    apply Qle_bool_iff in E. lra.
Qed.

Lemma Number_ltb_ge (a b : Q) : Number.ltb a b = false <-> b <= a.
Proof.
  unfold Number.ltb. rewrite negb_false_iff. apply Qle_bool_iff.
Qed.

Lemma Number_leb_le (a b : Q) : Number.leb a b = true <-> a <= b.
Proof. apply Qle_bool_iff. Qed.

Lemma Number_leb_gt (a b : Q) : Number.leb a b = false <-> b < a.
Proof.
  unfold Number.leb. split; intros H.
  - apply Qnot_le_lt. intros Hle. apply Qle_bool_iff in Hle. congruence.
  - destruct (Qle_bool a b) eqn:E; [|reflexivity].
    apply Qle_bool_iff in E. lra.
Qed.

Lemma Number_gtb_gt (a b : Q) : Number.gtb a b = true <-> b < a.
Proof. apply Number_ltb_lt. Qed.

Lemma Math_max_spec (a b : Q) : a <= Math.max a b /\ b <= Math.max a b /\ (Math.max a b = a \/ Math.max a b = b).
Proof.
  unfold Math.max. destruct (Number.ltb a b) eqn:E.
  - apply Number_ltb_lt in E. repeat split; [lra | lra | now right].
  - apply Number_ltb_ge in E. repeat split; [lra | lra | now left].
Qed.

Lemma Math_min_spec (a b : Q) : Math.min a b <= a /\ Math.min a b <= b /\ (Math.min a b = a \/ Math.min a b = b).
Proof.
  unfold Math.min. destruct (Number.ltb b a) eqn:E.
  - apply Number_ltb_lt in E. repeat split; [lra | lra | now right].
  - apply Number_ltb_ge in E. repeat split; [lra | lra | now left].
Qed.

(** ** Runs *)

Lemma Reachable_run (es : list Event) (g : Game.t) :
  Reachable g -> runnable es g -> Reachable (run es g).
Proof.
  revert g. induction es as [|e es IH]; intros g Hg Hes; simpl in *.
  - exact Hg.
  - destruct Hes as [He Hes]. apply IH; [|exact Hes].
    now apply reach_handle.
Qed.

(** ** The delivery and collision tests *)

Lemma inMailboxZone_spec (n : Newspaper.t) (mailbox : Mailbox.t) :
  Game.inMailboxZone n mailbox = true <->
  withinMailboxZone (Newspaper.position n) mailbox.
Proof.
  unfold Game.inMailboxZone, withinMailboxZone, Math.abs.
  rewrite !andb_true_iff, !Number_ltb_lt. tauto.
Qed.


Lemma hits_spec (p : Player.t) (obstacle : Obstacle.t) :
  Game.hits p obstacle = true <-> overlaps p obstacle.
Proof.
  unfold Game.hits, overlaps, Math.abs.
  rewrite !andb_true_iff, !Number_ltb_lt. tauto.
Qed.


(** ** [checkObstacleCollisions] *)

Lemma collide_effect (g : Game.t) :
  Game.lives (Game.collide g) = (Game.lives g - 1)%Z /\
  Game.score (Game.collide g) = (Game.score g - 5)%Z /\
  Player.isInvincible (Game.player (Game.collide g)) = true.
Proof.
  unfold Game.collide. cbn.
  destruct (Game.lives g - 1 <=? 0)%Z; cbn; auto.
Qed.

Lemma scanObstacles_spec (obs : list Obstacle.t) (g : Game.t) :
  (exists obstacle, obstacle ∈ obs /\ Obstacle.type obstacle <> hill /\
     overlaps (Game.player g) obstacle) /\
    Game.scanObstacles obs g = (Game.collide g, true)
  \/
  (forall obstacle, obstacle ∈ obs -> Obstacle.type obstacle <> hill ->
     ~ overlaps (Game.player g) obstacle) /\
    Game.scanObstacles obs g = (g, false).
Proof.
  induction obs as [|o obs IH]; simpl.
  - right. split; [|reflexivity]. intros o Ho. inversion Ho.
  - destruct (decide (Obstacle.type o = hill)) as [Hhill|Hhill].
    + destruct IH as [[(o' & Hin & Hty & Hov) Heq]|[Hnone Heq]].
      * left. split; [|exact Heq]. exists o'. split; [now right|auto].
      * right. split; [|exact Heq]. intros o' Hin Hty.
        apply elem_of_cons in Hin as [->|Hin]; [contradiction|auto].
    + destruct (Game.hits (Game.player g) o) eqn:Hhit.
      * left. split; [|reflexivity]. exists o.
        split; [now left|]. split; [exact Hhill|]. now apply hits_spec.
      * destruct IH as [[(o' & Hin & Hty & Hov) Heq]|[Hnone Heq]].
        -- left. split; [|exact Heq]. exists o'. split; [now right|auto].
        -- right. split; [|exact Heq]. intros o' Hin Hty.
           apply elem_of_cons in Hin as [->|Hin]; [|auto].
           intros Hov. apply hits_spec in Hov. congruence.
Qed.



(** ** [createNewspaper] *)

(** C9.  With no paper left, [createNewspaper] returns at once: the
    state of the game after the call is the state before it. *)
Theorem createNewspaper_without_papers (g : Game.t) (x y z velocityX velocityZ : Q) :
  (Game.papers g <= 0)%Z ->
  Game.createNewspaper x y z velocityX velocityZ g = g.
Proof.
  intros Hpapers. unfold Game.createNewspaper.
  destruct (Z.leb_spec (Game.papers g) 0); [reflexivity|lia].
Qed.

Lemma createNewspaper_without_papers_witness :
  (Game.papers out_of_papers <= 0)%Z /\
  Game.createNewspaper 0.5 2 0 0.5 0 out_of_papers = out_of_papers.
Proof.
  split.
  - vm_compute. discriminate.
  - apply createNewspaper_without_papers. vm_compute. discriminate.
Defined.

(** ** [updateNewspapers]: the delivery scans *)

Lemma scanMailboxes_cases (ms : list Mailbox.t) (g : Game.t) (n : Newspaper.t) :
  (exists mailbox, mailbox ∈ ms /\ Game.inMailboxZone n mailbox = true) /\
    Game.scanMailboxes ms g n = Game.deliver 1.2 20 g n
  \/
  (forall mailbox, mailbox ∈ ms -> Game.inMailboxZone n mailbox = false) /\
    Game.scanMailboxes ms g n = (g, n).
Proof.
  induction ms as [|m ms IH]; simpl.
  - right. split; [|reflexivity]. intros m Hm. inversion Hm.
  - destruct (Game.inMailboxZone n m) eqn:Hzone.
    + left. split; [|reflexivity]. exists m. split; [now left|exact Hzone].
    + destruct IH as [[(m' & Hin & Hm') Heq]|[Hnone Heq]].
      * left. split; [|exact Heq]. exists m'. split; [now right|exact Hm'].
      * right. split; [|exact Heq]. intros m' Hin.
        apply elem_of_cons in Hin as [->|Hin]; auto.
Qed.

Lemma scanPorches_cases (ps : list Porch.t) (g : Game.t) (n : Newspaper.t) :
  (exists porch, porch ∈ ps /\ Game.inPorchZone n porch = true) /\
    Game.scanPorches ps g n = Game.deliver 0.2 10 g n
  \/
  (forall porch, porch ∈ ps -> Game.inPorchZone n porch = false) /\
    Game.scanPorches ps g n = (g, n).
Proof.
  induction ps as [|p ps IH]; simpl.
  - right. split; [|reflexivity]. intros p Hp. inversion Hp.
  - destruct (Game.inPorchZone n p) eqn:Hzone.
    + left. split; [|reflexivity]. exists p. split; [now left|exact Hzone].
    + destruct IH as [[(p' & Hin & Hp') Heq]|[Hnone Heq]].
      * left. split; [|exact Heq]. exists p'. split; [now right|exact Hp'].
      * right. split; [|exact Heq]. intros p' Hin.
        apply elem_of_cons in Hin as [->|Hin]; auto.
Qed.

(** A newspaper at mailbox height is out of reach of every porch. *)
Lemma scanPorches_above (ps : list Porch.t) (g : Game.t) (n : Newspaper.t) :
  0.5 <= THREE.y (Newspaper.position n) ->
  Game.scanPorches ps g n = (g, n).
Proof.
  intros Hy. induction ps as [|p ps IH]; simpl; [reflexivity|].
  replace (Game.inPorchZone n p) with false; [exact IH|].
  symmetry. unfold Game.inPorchZone.
  apply andb_false_iff. right. now apply Number_ltb_ge.
Qed.

Lemma groundCollision_above (n : Newspaper.t) :
  0.05 < THREE.y (Newspaper.position n) -> Game.groundCollision n = n.
Proof.
  intros Hy. unfold Game.groundCollision.
  now rewrite (proj2 (Number_leb_gt _ _) Hy).
Qed.

(** The three ways through the airborne branch. *)
Lemma updateAirborne_cases (g : Game.t) (n : Newspaper.t) :
  let n1 := Game.moved g n in
  (exists mailbox, mailbox ∈ Game.mailboxes g /\ Game.inMailboxZone n1 mailbox = true) /\
    Game.updateAirborne g n =
      ((Game.deliver 1.2 20 g n1).1,
       Newspaper.set_object_position
         (Newspaper.position (Game.deliver 1.2 20 g n1).2) (Game.deliver 1.2 20 g n1).2)
  \/
  (forall mailbox, mailbox ∈ Game.mailboxes g -> Game.inMailboxZone n1 mailbox = false) /\
  (exists porch, porch ∈ Game.porches g /\ Game.inPorchZone n1 porch = true) /\
    Game.updateAirborne g n =
      ((Game.deliver 0.2 10 g n1).1,
       Newspaper.set_object_position
         (Newspaper.position (Game.deliver 0.2 10 g n1).2) (Game.deliver 0.2 10 g n1).2)
  \/
  (forall mailbox, mailbox ∈ Game.mailboxes g -> Game.inMailboxZone n1 mailbox = false) /\
  (forall porch, porch ∈ Game.porches g -> Game.inPorchZone n1 porch = false) /\
    Game.updateAirborne g n =
      (g, Newspaper.set_object_position
            (Newspaper.position (Game.groundCollision n1)) (Game.groundCollision n1)).
Proof.
  intros n1. unfold Game.updateAirborne. fold (Game.moved g n). fold n1.
  destruct (scanMailboxes_cases (Game.mailboxes g) g n1) as [[Hm Heq]|[Hm Heq]];
    rewrite Heq.
  - left. split; [exact Hm|].
    unfold Game.deliver at 1. cbv zeta.
    rewrite scanPorches_above by (cbn; lra).
    rewrite groundCollision_above by (cbn; lra).
    reflexivity.
  - right.
    destruct (scanPorches_cases (Game.porches g) g n1) as [[Hp Heq']|[Hp Heq']];
      rewrite Heq'.
    + left. split; [exact Hm|]. split; [exact Hp|].
      unfold Game.deliver at 1. cbv zeta.
      rewrite groundCollision_above by (cbn; lra).
      reflexivity.
    + right. split; [exact Hm|]. split; [exact Hp|]. reflexivity.
Qed.

Lemma deliver_effect (restY : Q) (points : Z) (g : Game.t) (n : Newspaper.t) :
  let n' := Newspaper.set_object_position
              (Newspaper.position (Game.deliver restY points g n).2)
              (Game.deliver restY points g n).2 in
  Game.score (Game.deliver restY points g n).1 = (Game.score g + points)%Z /\
  lies_delivered n'.
Proof.
  cbn. split; [reflexivity|]. unfold lies_delivered. cbn.
  repeat split; reflexivity.
Qed.

Lemma groundCollision_delivered (n : Newspaper.t) :
  Newspaper.delivered (Game.groundCollision n) = Newspaper.delivered n.
Proof.
  unfold Game.groundCollision.
  destruct (Number.leb _ _); reflexivity.
Qed.

Lemma scanWalls_delivered (ws : list Box3) (prevPos : Vector3) (n : Newspaper.t) :
  Newspaper.delivered (Game.scanWalls ws prevPos n) = Newspaper.delivered n.
Proof.
  induction ws as [|w ws IH]; simpl; [reflexivity|].
  destruct (THREE.containsPoint w (Newspaper.position n)); [reflexivity|exact IH].
Qed.

Lemma moved_delivered (g : Game.t) (n : Newspaper.t) :
  Newspaper.delivered (Game.moved g n) = Newspaper.delivered n.
Proof. unfold Game.moved. now rewrite scanWalls_delivered. Qed.

(** ** [updateNewspapers]: one iteration of the loop *)

Lemma updateNewspaper_airborne (g : Game.t) (n : Newspaper.t) :
  airborne n -> Game.updateNewspaper g n = Game.updateAirborne g n.
Proof.
  intros [Hthrown Hdelivered]. unfold Game.updateNewspaper.
  now rewrite Hthrown, Hdelivered.
Qed.

Lemma updateNewspaper_delivered (g : Game.t) (n : Newspaper.t) :
  Newspaper.delivered n = true -> Game.updateNewspaper g n = (g, n).
Proof.
  intros Hdelivered. unfold Game.updateNewspaper.
  rewrite Hdelivered. now rewrite andb_false_r.
Qed.





(** ** A newspaper over its lifetime *)

Lemma expired_delivered (g : Game.t) (n : Newspaper.t) :
  Newspaper.delivered n = true -> Game.expired g n = false.
Proof.
  intros Hdelivered. unfold Game.expired. rewrite Hdelivered.
  now rewrite andb_false_r.
Qed.

Lemma set_newspapers_id (g : Game.t) :
  Game.set_newspapers (Game.newspapers g) g = g.
Proof. now destruct g. Qed.

Lemma updateNewspaperAt_delivered (g : Game.t) (i : nat) (n : Newspaper.t) :
  Game.newspapers g !! i = Some n ->
  Newspaper.delivered n = true ->
  Game.updateNewspaperAt i g = g.
Proof.
  intros Hi Hdelivered. unfold Game.updateNewspaperAt.
  rewrite Hi, (updateNewspaper_delivered g n Hdelivered).
  rewrite (list_insert_id _ _ _ Hi), set_newspapers_id.
  now rewrite (expired_delivered g n Hdelivered).
Qed.

(** What one pass of the loop body gives, and what it leaves. *)
Lemma awarded_cases (g : Game.t) (n : Newspaper.t) :
  awarded g n = 0%Z /\
    Newspaper.delivered (Game.updateNewspaper g n).2 = Newspaper.delivered n
  \/
  (awarded g n = 10%Z \/ awarded g n = 20%Z) /\
    airborne n /\ lies_delivered (Game.updateNewspaper g n).2.
Proof.
  unfold awarded.
  destruct (Newspaper.thrown n && negb (Newspaper.delivered n)) eqn:Hguard.
  - apply andb_true_iff in Hguard as [Hthrown Hdelivered].
    apply negb_true_iff in Hdelivered.
    assert (Hair : airborne n) by (split; assumption).
    rewrite (updateNewspaper_airborne g n Hair).
    destruct (updateAirborne_cases g n)
      as [[_ Heq]|[(_ & _ & Heq)|(_ & _ & Heq)]]; rewrite Heq; clear Heq.
    + right. destruct (deliver_effect 1.2 20 g (Game.moved g n)) as [Hscore Hlies].
      split; [right; cbn [fst]; lia|]. split; [exact Hair|exact Hlies].
    + right. destruct (deliver_effect 0.2 10 g (Game.moved g n)) as [Hscore Hlies].
      split; [left; cbn [fst]; lia|]. split; [exact Hair|exact Hlies].
    + left. cbn [fst snd]. split; [lia|].
      cbn. now rewrite groundCollision_delivered, moved_delivered.
  - left. unfold Game.updateNewspaper. rewrite Hguard. cbn [fst snd].
    split; [lia|reflexivity].
Qed.

Lemma awardedOver_delivered (gs : list Game.t) (n : Newspaper.t) :
  Newspaper.delivered n = true ->
  nonzero (awardedOver gs n) = [] /\ total (awardedOver gs n) = 0%Z.
Proof.
  intros Hdelivered. induction gs as [|g gs IH]; [now split|].
  cbn [awardedOver]. unfold awarded.
  rewrite (updateNewspaper_delivered g n Hdelivered). cbn [fst snd].
  destruct IH as [IHnz IHtotal].
  replace (Game.score g - Game.score g)%Z with 0%Z by lia.
  split.
  - unfold nonzero in *. rewrite filter_cons_False by (intros H; now apply H).
    exact IHnz.
  - unfold total in *. cbn. rewrite IHtotal. reflexivity.
Qed.

Lemma awardedOver_once (gs : list Game.t) (n : Newspaper.t) :
  (length (nonzero (awardedOver gs n)) <= 1)%nat /\
  (total (awardedOver gs n) = 0%Z \/ total (awardedOver gs n) = 10%Z \/
   total (awardedOver gs n) = 20%Z).
Proof.
  revert n. induction gs as [|g gs IH]; intros n.
  - cbn. split; [lia|now left].
  - cbn [awardedOver].
    destruct (awarded_cases g n) as [[Hzero _]|(Hpoints & _ & Hlies)].
    + rewrite Hzero. destruct (IH (Game.updateNewspaper g n).2) as [IHnz IHtotal].
      split.
      * unfold nonzero in *. rewrite filter_cons_False by (intros H; now apply H).
        exact IHnz.
      * unfold total in *. cbn. exact IHtotal.
    + destruct Hlies as [Hdelivered _].
      destruct (awardedOver_delivered gs _ Hdelivered) as [Hnz Htotal].
      split.
      * unfold nonzero in *.
        rewrite filter_cons_True by (destruct Hpoints as [-> | ->]; discriminate).
        rewrite Hnz. cbn. lia.
      * unfold total in *. cbn [foldr]. rewrite Htotal.
        destruct Hpoints as [-> | ->]; [right; left|right; right]; reflexivity.
Qed.

(** C10.  A newspaper is delivered and scored at most once.  It is
    created in flight and undelivered.  In one pass of the loop body it
    earns 0, 10 or 20 points, never the sum of two zones, and 20
    whenever a mailbox zone holds it, whatever the porches; points are earned only by a newspaper in flight, which the
    pass leaves delivered; a delivered newspaper is passed by, neither
    moved, scored nor removed.  So over any sequence of frames at most
    one frame gives points for it, 10 or 20 in all. *)
Theorem newspaper_awards_once (gs : list Game.t) (g : Game.t) (n : Newspaper.t) :
  (forall x y z velocityX velocityZ,
     airborne (createNewspaper x y z velocityX velocityZ)) /\
  (awarded g n = 0%Z \/ awarded g n = 10%Z \/ awarded g n = 20%Z) /\
  (airborne n ->
   (exists mailbox, mailbox ∈ Game.mailboxes g /\
      withinMailboxZone (Newspaper.position (Game.moved g n)) mailbox) ->
   awarded g n = 20%Z) /\
  (awarded g n <> 0%Z ->
   airborne n /\ lies_delivered (Game.updateNewspaper g n).2) /\
  (Newspaper.delivered n = true ->
   Game.updateNewspaper g n = (g, n) /\
   Game.expired g n = false /\
   forall i, Game.newspapers g !! i = Some n -> Game.updateNewspaperAt i g = g) /\
  (length (nonzero (awardedOver gs n)) <= 1)%nat /\
  (total (awardedOver gs n) = 0%Z \/ total (awardedOver gs n) = 10%Z \/
   total (awardedOver gs n) = 20%Z).
Proof.
  split; [intros; split; reflexivity|].
  split; [|split; [|split; [|split]]].
  - destruct (awarded_cases g n) as [[Hzero _]|([H10|H20] & _)]; auto.
  - intros Hair (m & Hin & Hzone). apply inMailboxZone_spec in Hzone.
    unfold awarded. rewrite (updateNewspaper_airborne g n Hair).
    destruct (updateAirborne_cases g n)
      as [[_ Heq]|[(Hm & _ & Heq)|(Hm & _ & Heq)]].
    + rewrite Heq. cbn. lia.
    + rewrite (Hm m Hin) in Hzone. discriminate.
    + rewrite (Hm m Hin) in Hzone. discriminate.
  - intros Hne. destruct (awarded_cases g n) as [[Hzero _]|(_ & Hair & Hlies)].
    + contradiction.
    + split; assumption.
  - intros Hdelivered. split; [now apply updateNewspaper_delivered|].
    split; [now apply expired_delivered|].
    intros i Hi. now apply updateNewspaperAt_delivered with (n := n).
  - apply awardedOver_once.
Qed.

(** ** What a pass over the newspapers leaves alone *)

Lemma newspapers_pass_refl (g : Game.t) : newspapers_pass g g.
Proof.
  exists (Game.score g), (Game.ui g), (Game.newspapers g).
  split; [now destruct g|]. split; [lia|]. split; reflexivity.
Qed.

Lemma newspapers_pass_trans (g1 g2 g3 : Game.t) :
  newspapers_pass g1 g2 -> newspapers_pass g2 g3 -> newspapers_pass g1 g3.
Proof.
  intros (s & u & l & -> & Hl & Hs & Ho) (s' & u' & l' & -> & Hl' & Hs' & Ho').
  exists s', u', l'. cbn in *.
  split; [reflexivity|]. split; [lia|]. split; congruence.
Qed.

Lemma newspapers_pass_fields (g g' : Game.t) :
  newspapers_pass g g' ->
  Game.walls g' = Game.walls g /\
  Game.player g' = Game.player g /\
  Game.keys g' = Game.keys g /\
  Game.deltaTime g' = Game.deltaTime g /\
  Game.isActive g' = Game.isActive g /\
  Game.papers g' = Game.papers g /\
  Game.lives g' = Game.lives g /\
  Game.obstacles g' = Game.obstacles g /\
  Game.mailboxes g' = Game.mailboxes g /\
  Game.porches g' = Game.porches g /\
  Game.gameTime g' = Game.gameTime g /\
  (length (Game.newspapers g') <= length (Game.newspapers g))%nat /\
  UI.startScreen (Game.ui g') = UI.startScreen (Game.ui g) /\
  UI.gameOverScreen (Game.ui g') = UI.gameOverScreen (Game.ui g).
Proof.
  intros (s & u & l & -> & Hl & Hs & Ho). cbn. repeat split; assumption.
Qed.

Lemma deliver_pass (restY : Q) (points : Z) (g : Game.t) (n : Newspaper.t) :
  newspapers_pass g (Game.deliver restY points g n).1 /\
  Game.newspapers (Game.deliver restY points g n).1 = Game.newspapers g.
Proof.
  split; [|reflexivity].
  exists (Game.score g + points)%Z,
         (UI.update (Game.score g + points) (Game.papers g) (Game.lives g) (Game.ui g)),
         (Game.newspapers g).
  split; [reflexivity|]. split; [lia|]. split; reflexivity.
Qed.

Lemma updateNewspaper_pass (g : Game.t) (n : Newspaper.t) :
  newspapers_pass g (Game.updateNewspaper g n).1 /\
  Game.newspapers (Game.updateNewspaper g n).1 = Game.newspapers g.
Proof.
  unfold Game.updateNewspaper.
  destruct (Newspaper.thrown n && negb (Newspaper.delivered n));
    [|split; [apply newspapers_pass_refl|reflexivity]].
  destruct (updateAirborne_cases g n)
    as [[_ ->]|[(_ & _ & ->)|(_ & _ & ->)]]; cbn [fst].
  - apply deliver_pass.
  - apply deliver_pass.
  - split; [apply newspapers_pass_refl|reflexivity].
Qed.

Lemma updateNewspaperAt_pass (i : nat) (g : Game.t) :
  newspapers_pass g (Game.updateNewspaperAt i g).
Proof.
  unfold Game.updateNewspaperAt.
  destruct (Game.newspapers g !! i) as [n|] eqn:Hi; [|apply newspapers_pass_refl].
  apply lookup_lt_Some in Hi.
  destruct (updateNewspaper_pass g n) as [Hpass Hlist].
  destruct (Game.updateNewspaper g n) as [g1 n1]. cbn [fst] in *.
  destruct Hpass as (s & u & l & -> & Hl & Hs & Ho). cbn in *. subst l.
  destruct (Game.expired _ n1).
  - exists s, u, (delete i (<[i:=n1]> (Game.newspapers g))).
    split; [reflexivity|]. split; [|split; assumption].
    rewrite length_delete, length_insert; [lia|].
    rewrite list_lookup_insert_eq by exact Hi. now eexists.
  - exists s, u, (<[i:=n1]> (Game.newspapers g)).
    split; [reflexivity|]. split; [|split; assumption].
    now rewrite length_insert.
Qed.

Lemma updateNewspapersFrom_pass (k : nat) (g : Game.t) :
  newspapers_pass g (Game.updateNewspapersFrom k g).
Proof.
  revert g. induction k as [|i IH]; intros g; simpl.
  - apply newspapers_pass_refl.
  - eapply newspapers_pass_trans; [apply updateNewspaperAt_pass|apply IH].
Qed.

Lemma updateNewspapers_pass (g : Game.t) :
  newspapers_pass g (Game.updateNewspapers g).
Proof.
  unfold Game.updateNewspapers.
  destruct (length (Game.newspapers g) =? 0)%nat.
  - apply newspapers_pass_refl.
  - apply updateNewspapersFrom_pass.
Qed.

(** ** [updateNewspapers]: the whole loop *)

Lemma scanMailboxes_set_newspapers (ms : list Mailbox.t) (l : list Newspaper.t)
    (g : Game.t) (n : Newspaper.t) :
  Game.scanMailboxes ms (Game.set_newspapers l g) n =
  (Game.set_newspapers l (Game.scanMailboxes ms g n).1, (Game.scanMailboxes ms g n).2).
Proof.
  induction ms as [|m ms IH]; simpl; [reflexivity|].
  destruct (Game.inMailboxZone n m); [reflexivity|exact IH].
Qed.

Lemma scanPorches_set_newspapers (ps : list Porch.t) (l : list Newspaper.t)
    (g : Game.t) (n : Newspaper.t) :
  Game.scanPorches ps (Game.set_newspapers l g) n =
  (Game.set_newspapers l (Game.scanPorches ps g n).1, (Game.scanPorches ps g n).2).
Proof.
  induction ps as [|p ps IH]; simpl; [reflexivity|].
  destruct (Game.inPorchZone n p); [reflexivity|exact IH].
Qed.

(** The loop body does not read the array it is run on. *)
Lemma updateNewspaper_set_newspapers (l : list Newspaper.t) (g : Game.t) (n : Newspaper.t) :
  Game.updateNewspaper (Game.set_newspapers l g) n =
  (Game.set_newspapers l (Game.updateNewspaper g n).1, (Game.updateNewspaper g n).2).
Proof.
  unfold Game.updateNewspaper.
  destruct (Newspaper.thrown n && negb (Newspaper.delivered n)); [|reflexivity].
  unfold Game.updateAirborne.
  change (Game.walls (Game.set_newspapers l g)) with (Game.walls g).
  change (Game.mailboxes (Game.set_newspapers l g)) with (Game.mailboxes g).
  rewrite scanMailboxes_set_newspapers.
  destruct (Game.scanMailboxes (Game.mailboxes g) g _) as [g1 n1] eqn:Hm.
  cbn [fst snd].
  change (Game.porches (Game.set_newspapers l g1)) with (Game.porches g1).
  rewrite scanPorches_set_newspapers.
  destruct (Game.scanPorches (Game.porches g1) g1 n1) as [g2 n2].
  reflexivity.
Qed.

Lemma sweep_set_newspapers (rs : list Newspaper.t) (l : list Newspaper.t)
    (g : Game.t) (kept : list Newspaper.t) :
  sweep rs (Game.set_newspapers l g) kept =
  (Game.set_newspapers l (sweep rs g kept).1, (sweep rs g kept).2).
Proof.
  revert g kept. induction rs as [|n rs IH]; intros g kept; simpl; [reflexivity|].
  rewrite updateNewspaper_set_newspapers.
  destruct (Game.updateNewspaper g n) as [g1 n']. cbn [fst snd].
  change (Game.expired (Game.set_newspapers l g1) n') with (Game.expired g1 n').
  apply IH.
Qed.

(** One iteration at the last index not yet visited: the newspaper is
    found there, and is replaced by its update or removed. *)
Lemma updateNewspaperAt_middle (pre post : list Newspaper.t) (n : Newspaper.t) (g : Game.t) :
  Game.newspapers g = pre ++ n :: post ->
  Game.updateNewspaperAt (length pre) g =
  let '(g1, n') := Game.updateNewspaper g n in
  Game.set_newspapers (pre ++ (if Game.expired g1 n' then post else n' :: post)) g1.
Proof.
  intros Hlist. unfold Game.updateNewspaperAt.
  rewrite Hlist, list_lookup_middle by reflexivity.
  destruct (updateNewspaper_pass g n) as [_ Hsame].
  destruct (Game.updateNewspaper g n) as [g1 n']. cbn [fst] in Hsame.
  rewrite Hsame, Hlist.
  change (Game.expired (Game.set_newspapers _ g1) n') with (Game.expired g1 n').
  rewrite insert_app_r_alt, Nat.sub_diag by reflexivity. cbn [insert list_insert].
  destruct (Game.expired g1 n'); [|reflexivity].
  cbn [Game.newspapers Game.set_newspapers]. now rewrite delete_middle.
Qed.

(** The loop, started below the newspapers [post], visits every
    newspaper of [pre] once, last to first; it never reads past the end
    of the array. *)
Lemma updateNewspapersFrom_spec (pre post : list Newspaper.t) (g : Game.t) :
  Game.newspapers g = pre ++ post ->
  Game.updateNewspapersFrom (length pre) g =
  Game.set_newspapers (sweep (rev pre) g post).2 (sweep (rev pre) g post).1.
Proof.
  revert post g. induction pre as [|n pre IH] using rev_ind; intros post g Hlist.
  - cbn in *. rewrite <- Hlist. now destruct g.
  - rewrite length_app, Nat.add_comm. cbn [length Nat.add Game.updateNewspapersFrom].
    rewrite <- app_assoc in Hlist. cbn [app] in Hlist.
    rewrite (updateNewspaperAt_middle pre post n g Hlist).
    rewrite rev_unit. cbn [sweep].
    destruct (Game.updateNewspaper g n) as [g1 n'].
    rewrite (IH (if Game.expired g1 n' then post else n' :: post)) by reflexivity.
    rewrite sweep_set_newspapers. reflexivity.
Qed.

Lemma updateNewspapers_sweep (g : Game.t) :
  Game.updateNewspapers g =
  Game.set_newspapers (sweep (rev (Game.newspapers g)) g []).2
                      (sweep (rev (Game.newspapers g)) g []).1.
Proof.
  unfold Game.updateNewspapers.
  destruct (length (Game.newspapers g) =? 0)%nat eqn:Hlen.
  - apply Nat.eqb_eq, nil_length_inv in Hlen. rewrite Hlen. cbn.
    rewrite <- Hlen. now destruct g.
  - apply updateNewspapersFrom_spec. now rewrite app_nil_r.
Qed.

(** ** The frame *)

Lemma checkObstacleCollisions_cases (g : Game.t) :
  Game.checkObstacleCollisions g = (g, false) \/
  Player.isInvincible (Game.player g) = false /\
  Game.checkObstacleCollisions g = (Game.collide g, true).
Proof.
  unfold Game.checkObstacleCollisions.
  destruct (Player.isInvincible (Game.player g)); [now left|].
  destruct (scanObstacles_spec (Game.obstacles g) g) as [[_ ->]|[_ ->]];
    [right; split; reflexivity|now left].
Qed.

(** The collision test reads the player and the obstacles only. *)
Lemma checkObstacleCollisions_reads (g g0 : Game.t) :
  Game.player g0 = Game.player g ->
  Game.obstacles g0 = Game.obstacles g ->
  (Game.checkObstacleCollisions g0).2 = (Game.checkObstacleCollisions g).2.
Proof.
  intros Hplayer Hobstacles. unfold Game.checkObstacleCollisions.
  rewrite Hplayer.
  destruct (Player.isInvincible (Game.player g)); [reflexivity|].
  rewrite Hobstacles.
  destruct (scanObstacles_spec (Game.obstacles g) g0)
    as [[(o & Hin & Hty & Hov) ->]|[Hnone ->]];
    destruct (scanObstacles_spec (Game.obstacles g) g)
      as [[(o' & Hin' & Hty' & Hov') ->]|[Hnone' ->]]; try reflexivity.
  - rewrite Hplayer in Hov. exfalso. exact (Hnone' o Hin Hty Hov).
  - rewrite <- Hplayer in Hov'. exfalso. exact (Hnone o' Hin' Hty' Hov').
Qed.

Lemma animate_inactive (dt : Q) (g : Game.t) :
  Game.isActive g = false -> Game.animate dt g = Game.set_deltaTime dt g.
Proof.
  intros Hactive. unfold Game.animate. cbn. now rewrite Hactive.
Qed.

(** The active branch of [animate], step by step. *)
Lemma animate_active (dt : Q) (g : Game.t) :
  Game.isActive g = true ->
  let g0 := Game.set_gameTime (Game.gameTime g + dt) (Game.set_deltaTime dt g) in
  exists g1,
    ((Game.checkObstacleCollisions g).2 = false /\
       g1 = Game.set_player (Player.update dt (Game.player g)) g0
     \/
     (Game.checkObstacleCollisions g).2 = true /\
       Player.isInvincible (Game.player g) = false /\
       g1 = Game.collide g0) /\
    Game.animate dt g =
      let g2 := Game.updateNewspapers g1 in
      if (Game.papers g2 <=? 0)%Z && (length (Game.newspapers g2) =? 0)%nat &&
         (Game.lives g2 >? 0)%Z
      then Game.endGame g2 else g2.
Proof.
  intros Hactive g0. unfold Game.animate. cbn [Game.isActive Game.set_deltaTime].
  rewrite Hactive. fold g0.
  pose proof (checkObstacleCollisions_reads g g0 eq_refl eq_refl) as Hreads.
  change (Game.deltaTime
            (Game.set_gameTime
               (Game.gameTime (Game.set_deltaTime dt g) +
                Game.deltaTime (Game.set_deltaTime dt g))
               (Game.set_deltaTime dt g))) with dt.
  change (Game.set_gameTime
            (Game.gameTime (Game.set_deltaTime dt g) +
             Game.deltaTime (Game.set_deltaTime dt g))
            (Game.set_deltaTime dt g)) with g0.
  destruct (checkObstacleCollisions_cases g0) as [Heq|[Hinv Heq]];
    rewrite Heq in *; cbn [fst snd negb] in *.
  - eexists. split; [left; split; [now symmetry|reflexivity]|reflexivity].
  - eexists. split; [right; split; [now symmetry|split; [exact Hinv|reflexivity]]|].
    reflexivity.
Qed.

(** ** The player *)

Ltac case_ifs :=
  repeat match goal with
         | |- context [if ?b then _ else _] => destruct b eqn:?
         end.

Lemma Player_update_x (dt : Q) (p : Player.t) :
  THREE.x (Player.position (Player.update dt p)) =
  Math.max (-15) (Math.min 15 (THREE.x (Player.position p) + THREE.x (Player.velocity p))).
Proof.
  unfold Player.update, Player.updateInvincibility, Player.updateJump. cbn.
  case_ifs; reflexivity.
Qed.

Lemma Player_update_inLane (dt : Q) (p : Player.t) :
  inLane (Player.update dt p).
Proof.
  unfold inLane. rewrite Player_update_x.
  set (a := THREE.x (Player.position p) + THREE.x (Player.velocity p)).
  destruct (Math_min_spec 15 a) as (Hmin15 & _ & _).
  destruct (Math_max_spec (-15) (Math.min 15 a)) as (Hlow & _ & [Heq|Heq]);
    rewrite Heq in *; lra.
Qed.

Lemma Player_startJump_position (p : Player.t) :
  Player.position (Player.startJump p) = Player.position p.
Proof. unfold Player.startJump. case_ifs; reflexivity. Qed.

(** ** Every callback keeps the invariant *)

Lemma finish_fields (c : bool) (g : Game.t) :
  let g' := if c then Game.endGame g else g in
  Game.papers g' = Game.papers g /\
  Game.lives g' = Game.lives g /\
  Game.newspapers g' = Game.newspapers g /\
  Game.player g' = Game.player g /\
  same_world g g' /\
  UI.startScreen (Game.ui g') = UI.startScreen (Game.ui g) /\
  Game.isActive g' = (if c then false else Game.isActive g).
Proof. destruct c; cbn; unfold same_world; repeat split. Qed.

Lemma collide_fields (g : Game.t) :
  Game.papers (Game.collide g) = Game.papers g /\
  Game.newspapers (Game.collide g) = Game.newspapers g /\
  Player.position (Game.player (Game.collide g)) = Player.position (Game.player g) /\
  same_world g (Game.collide g) /\
  UI.startScreen (Game.ui (Game.collide g)) = UI.startScreen (Game.ui g) /\
  Game.isActive (Game.collide g) =
    (if (Game.lives g - 1 <=? 0)%Z then false else Game.isActive g).
Proof.
  unfold Game.collide. cbn.
  destruct (Game.lives g - 1 <=? 0)%Z; cbn; unfold same_world; repeat split.
Qed.

Lemma createNewspaper_fields (x y z velocityX velocityZ : Q) (g : Game.t) :
  let g' := Game.createNewspaper x y z velocityX velocityZ g in
  (g' = g /\ (Game.papers g <= 0)%Z
   \/
   (0 < Game.papers g)%Z /\
   Game.papers g' = (Game.papers g - 1)%Z /\
   Game.newspapers g' =
     Game.newspapers g ++ [createNewspaper x y z velocityX velocityZ]) /\
  Game.player g' = Game.player g /\
  Game.isActive g' = Game.isActive g /\
  Game.lives g' = Game.lives g /\
  same_world g g' /\
  UI.startScreen (Game.ui g') = UI.startScreen (Game.ui g).
Proof.
  unfold Game.createNewspaper.
  destruct (Z.leb_spec (Game.papers g) 0); cbn; unfold same_world.
  - repeat split. now left.
  - repeat split. right. repeat split. exact H.
Qed.

Lemma handleSpecialKeyActions_fields (key : string) (h : Heading) (g : Game.t) :
  let g' := Controls.handleSpecialKeyActions key h g in
  (Game.isActive g = false -> g' = g) /\
  (Game.papers g' = Game.papers g /\ Game.newspapers g' = Game.newspapers g
   \/
   (0 < Game.papers g)%Z /\
   Game.papers g' = (Game.papers g - 1)%Z /\
   exists n, Game.newspapers g' = Game.newspapers g ++ [n]) /\
  Player.position (Game.player g') = Player.position (Game.player g) /\
  Game.isActive g' = Game.isActive g /\
  Game.lives g' = Game.lives g /\
  same_world g g' /\
  UI.startScreen (Game.ui g') = UI.startScreen (Game.ui g).
Proof.
  unfold Controls.handleSpecialKeyActions.
  destruct (Game.isActive g) eqn:Hactive; cbn [negb];
    [|unfold same_world; repeat split; auto].
  split; [discriminate|].
  set (g1 := if _ : bool then _ else g).
  assert (H1 : Game.papers g1 = Game.papers g /\
               Game.newspapers g1 = Game.newspapers g /\
               Player.position (Game.player g1) = Player.position (Game.player g) /\
               Game.isActive g1 = Game.isActive g /\
               Game.lives g1 = Game.lives g /\
               same_world g g1 /\
               UI.startScreen (Game.ui g1) = UI.startScreen (Game.ui g)).
  { subst g1. unfold same_world.
    destruct (_ && _ && _); cbn; rewrite ?Player_startJump_position;
      repeat split; auto. }
  clearbody g1. destruct H1 as (Hp & Hn & Hpos & Hact & Hl & (Ho & Hm & Hpo) & Hs).
  destruct (bool_decide (key = " "%string) && (Game.papers g1 >? 0)%Z).
  - unfold Game.throwNewspaper.
    match goal with |- context [Game.createNewspaper ?a ?b ?c ?d ?e g1] =>
      destruct (createNewspaper_fields a b c d e g1)
        as (Hcases & Hpl' & Hact' & Hl' & (Ho' & Hm' & Hpo') & Hs');
      set (g2 := Game.createNewspaper a b c d e g1) in *
    end.
    clearbody g2. unfold same_world.
    split; [|repeat split; congruence].
    destruct Hcases as [[-> _]|(Hpos' & Hp' & Hn')].
    + left. split; assumption.
    + right. split; [lia|]. split; [lia|]. eexists. rewrite Hn', Hn. reflexivity.
  - unfold same_world. rewrite Hact in *. split; [left; split; assumption|].
    repeat split; congruence.
Qed.

Lemma animate_fields (dt : Q) (g : Game.t) :
  let g' := Game.animate dt g in
  Game.papers g' = Game.papers g /\
  (length (Game.newspapers g') <= length (Game.newspapers g))%nat /\
  same_world g g' /\
  UI.startScreen (Game.ui g') = UI.startScreen (Game.ui g) /\
  (THREE.x (Player.position (Game.player g')) = THREE.x (Player.position (Game.player g))
   \/ inLane (Game.player g')) /\
  (Game.isActive g = false ->
     Game.isActive g' = false /\ Game.newspapers g' = Game.newspapers g /\
     Game.ui g' = Game.ui g) /\
  ((0 < Game.lives g)%Z -> Game.isActive g' = true -> (0 < Game.lives g')%Z).
Proof.
  intros g'. subst g'. destruct (Game.isActive g) eqn:Hactive.
  - destruct (animate_active dt g Hactive) as (g1 & Hcases & ->). cbv zeta.
    assert (Hg1 : Game.papers g1 = Game.papers g /\
                  Game.newspapers g1 = Game.newspapers g /\
                  same_world g g1 /\
                  UI.startScreen (Game.ui g1) = UI.startScreen (Game.ui g) /\
                  (THREE.x (Player.position (Game.player g1))
                     = THREE.x (Player.position (Game.player g))
                   \/ inLane (Game.player g1)) /\
                  ((0 < Game.lives g)%Z -> Game.isActive g1 = true ->
                   (0 < Game.lives g1)%Z)).
    { destruct Hcases as [[_ ->]|(_ & _ & ->)].
      - cbn. unfold same_world. repeat split; auto.
        right. apply Player_update_inLane.
      - destruct (collide_fields
                    (Game.set_gameTime (Game.gameTime g + dt) (Game.set_deltaTime dt g)))
          as (Hcp & Hcn & Hcpos & Hcw & Hcs & Hca).
        rewrite Hcp, Hcn, Hcpos, Hcs, Hca. split; [reflexivity|].
        split; [reflexivity|]. split; [exact Hcw|]. split; [reflexivity|].
        split; [now left|]. intros _. cbn.
        destruct (Z.leb_spec (Game.lives g - 1) 0); [discriminate|].
        intros _. unfold Game.collide. cbn. case_ifs; cbn; lia. }
    clear Hcases.
    destruct Hg1 as (Hp1 & Hn1 & (Ho1 & Hm1 & Hpo1) & Hs1 & Hx1 & Hl1).
    pose proof (newspapers_pass_fields _ _ (updateNewspapers_pass g1))
      as (_ & Hpl & _ & _ & Hact & Hpap & Hliv & Hob & Hmb & Hpo & _ & Hlen & Hss & _).
    set (g2 := Game.updateNewspapers g1) in *. clearbody g2.
    match goal with |- context [if ?c then Game.endGame g2 else g2] =>
      destruct (finish_fields c g2)
        as (Hpap' & Hliv' & Hnews' & Hpl' & (Hob' & Hmb' & Hpo') & Hss' & Hact');
      set (g3 := if c then Game.endGame g2 else g2) in *; set (cond := c) in *
    end.
    clearbody g3 cond. unfold same_world.
    split; [congruence|]. split; [rewrite Hnews', <- Hn1; exact Hlen|].
    split; [repeat split; congruence|]. split; [congruence|].
    split; [rewrite Hpl', Hpl; exact Hx1|].
    split; [discriminate|].
    intros Hlives Hact3. rewrite Hliv', Hliv. apply Hl1; [exact Hlives|].
    rewrite Hact' in Hact3. destruct cond; [discriminate|]. congruence.
  - rewrite (animate_inactive dt g Hactive). cbn. unfold same_world.
    repeat split; auto; discriminate.
Qed.

Lemma Controls_update_fields (g : Game.t) :
  let g' := Controls.update g in
  Game.papers g' = Game.papers g /\
  Game.newspapers g' = Game.newspapers g /\
  Game.lives g' = Game.lives g /\
  Game.isActive g' = Game.isActive g /\
  Game.ui g' = Game.ui g /\
  Player.position (Game.player g') = Player.position (Game.player g) /\
  same_world g g'.
Proof.
  unfold Controls.update, same_world.
  destruct (Game.isActive g) eqn:Hactive; cbn [negb]; [|repeat split; auto].
  cbv beta zeta. case_ifs; cbn; repeat split; auto.
Qed.

Lemma handleKeyDown_fields (key : string) (h : Heading) (g : Game.t) :
  let g' := Controls.handleKeyDown key h g in
  (Game.isActive g = false ->
     Game.isActive g' = false /\ Game.newspapers g' = Game.newspapers g /\
     Game.ui g' = Game.ui g) /\
  (Game.papers g' = Game.papers g /\ Game.newspapers g' = Game.newspapers g
   \/
   (0 < Game.papers g)%Z /\
   Game.papers g' = (Game.papers g - 1)%Z /\
   exists n, Game.newspapers g' = Game.newspapers g ++ [n]) /\
  Player.position (Game.player g') = Player.position (Game.player g) /\
  Game.isActive g' = Game.isActive g /\
  Game.lives g' = Game.lives g /\
  same_world g g' /\
  UI.startScreen (Game.ui g') = UI.startScreen (Game.ui g).
Proof.
  unfold Controls.handleKeyDown.
  destruct (bool_decide (is_Some (Game.keys g !! key))).
  - destruct (handleSpecialKeyActions_fields key h
                (Game.set_keys (<[key:=true]> (Game.keys g)) g))
      as (Hinactive & Hcases & Hpos & Hact & Hlives & Hworld & Hstart).
    unfold same_world in *.
    cbn in Hinactive, Hcases, Hpos, Hact, Hlives, Hworld, Hstart.
    split; [|repeat split; solve [assumption|apply Hworld]].
    intros Hoff. rewrite (Hinactive Hoff). cbn. auto.
  - unfold same_world. split; [auto|]. split; [now left|]. repeat split.
Qed.

Lemma inLane_x (p p' : Player.t) :
  THREE.x (Player.position p') = THREE.x (Player.position p) \/ inLane p' ->
  inLane p -> inLane p'.
Proof.
  unfold inLane. intros [Hx|Hlane] Hp; [rewrite Hx|]; assumption.
Qed.

Lemma handle_invariant (e : Event) (g : Game.t) :
  invariant g -> enabled e g -> invariant (handle e g).
Proof.
  intros (Hpapers & Hcount & Hlives & Hlane & Hfresh) Henabled.
  destruct e as [dt| |key h|key| |]; cbn [handle].
  - destruct (animate_fields dt g)
      as (Hp & Hlen & _ & Hstart & Hx & Hoff & Hlive).
    split; [lia|]. split; [lia|]. split; [|split].
    + intros Hact'. destruct (Game.isActive g) eqn:Hact.
      * apply Hlive; auto.
      * destruct (Hoff eq_refl) as (Hoff' & _). congruence.
    + exact (inLane_x _ _ Hx Hlane).
    + rewrite Hstart. intros Hs. destruct (Hfresh Hs) as (Hact & Hnews & Hover).
      destruct (Hoff Hact) as (Hact' & Hnews' & Hui). rewrite Hui. split; [exact Hact'|].
      split; [congruence|exact Hover].
  - destruct (Controls_update_fields g) as (Hp & Hn & Hl & Hact & Hui & Hpos & _).
    rewrite <- Hp, <- Hn, <- Hl, <- Hact, <- Hui in *.
    repeat split; try tauto.
    + unfold inLane in *. now rewrite Hpos.
    + unfold inLane in *. now rewrite Hpos.
  - destruct (handleKeyDown_fields key h g)
      as (Hoff & Hcases & Hpos & Hact & Hl & _ & Hstart).
    split; [|split; [|split; [|split]]].
    + destruct Hcases as [[-> _]|(? & -> & _)]; lia.
    + destruct Hcases as [[-> ->]|(? & -> & n & ->)]; [lia|].
      rewrite length_app. cbn. lia.
    + rewrite Hact, Hl. exact Hlives.
    + unfold inLane in *. now rewrite Hpos.
    + rewrite Hstart. intros Hs. destruct (Hfresh Hs) as (Hinactive & Hnews & Hover).
      destruct (Hoff Hinactive) as (Hact' & Hnews' & Hui). rewrite Hui.
      split; [exact Hact'|]. split; [congruence|exact Hover].
  - unfold Controls.handleKeyUp.
    destruct (bool_decide _);
      (split; [exact Hpapers|]; split; [exact Hcount|]; split; [exact Hlives|];
       split; [exact Hlane|exact Hfresh]).
  - cbn in Henabled. destruct (Hfresh Henabled) as (_ & Hnews & _).
    unfold invariant, inLane in *. cbn. rewrite Hnews. cbn.
    split; [lia|]. split; [lia|]. split; [lia|]. split; [exact Hlane|intros [=]].
  - unfold invariant, inLane in *. cbn.
    split; [lia|]. split; [lia|]. split; [lia|]. split; [lra|].
    intros Hs. destruct (Hfresh Hs) as (_ & _ & Hover).
    cbn in Henabled. congruence.
Qed.

Lemma Reachable_invariant (g : Game.t) : Reachable g -> invariant g.
Proof.
  induction 1 as [g (ws & os & ms & ps & page & -> & Hstart & Hover)|e g _ IH He].
  - unfold invariant, inLane. cbn.
    split; [lia|]. split; [lia|]. split; [discriminate|]. split; [lra|].
    intros _. repeat split. exact Hover.
  - now apply handle_invariant.
Qed.

(** ** The world after generation *)

Lemma handle_same_world (e : Event) (g : Game.t) : same_world g (handle e g).
Proof.
  destruct e as [dt| |key h|key| |]; cbn [handle].
  - apply animate_fields.
  - apply Controls_update_fields.
  - apply handleKeyDown_fields.
  - unfold Controls.handleKeyUp, same_world.
    destruct (bool_decide _); repeat split.
  - unfold same_world. repeat split.
  - unfold same_world. repeat split.
Qed.

(** C8.  The obstacle, mailbox and porch arrays, and so every record in
    them, are the same after [checkObstacleCollisions], after
    [updateNewspapers] and after a whole frame as before; no other
    callback of the game changes them either. *)
Theorem world_is_read_only (g : Game.t) (dt : Q) (e : Event) :
  same_world g (Game.checkObstacleCollisions g).1 /\
  same_world g (Game.updateNewspapers g) /\
  same_world g (Game.animate dt g) /\
  same_world g (handle e g).
Proof.
  split; [|split; [|split]].
  - destruct (checkObstacleCollisions_cases g) as [->|[_ ->]]; cbn [fst].
    + unfold same_world. repeat split.
    + apply collide_fields.
  - pose proof (newspapers_pass_fields _ _ (updateNewspapers_pass g)) as H.
    unfold same_world. tauto.
  - apply animate_fields.
  - apply handle_same_world.
Qed.

(** ** The lane *)

Lemma handle_player_x (e : Event) (g : Game.t) :
  THREE.x (Player.position (Game.player (handle e g)))
    = THREE.x (Player.position (Game.player g))
  \/ inLane (Game.player (handle e g)).
Proof.
  destruct e as [dt| |key h|key| |]; cbn [handle].
  - apply animate_fields.
  - left. destruct (Controls_update_fields g) as (_ & _ & _ & _ & _ & -> & _).
    reflexivity.
  - left. destruct (handleKeyDown_fields key h g) as (_ & _ & -> & _).
    reflexivity.
  - left. unfold Controls.handleKeyUp. destruct (bool_decide _); reflexivity.
  - left. reflexivity.
  - right. unfold inLane. cbn. lra.
Qed.

(** C4.  Whatever the position and the velocity of the player,
    [Player.update] leaves its X within [-15, 15].  Every callback of
    the game either leaves the player's X as it was or leaves it within
    that range, so in every state the game reaches the player is in the
    lane. *)
Theorem player_stays_in_lane (dt : Q) (p : Player.t) (e : Event) (g : Game.t) :
  inLane (Player.update dt p) /\
  (THREE.x (Player.position (Game.player (handle e g)))
     = THREE.x (Player.position (Game.player g))
   \/ inLane (Game.player (handle e g))) /\
  (forall g', Reachable g' -> inLane (Game.player g')).
Proof.
  split; [apply Player_update_inLane|]. split; [apply handle_player_x|].
  intros g' Hreach. apply (Reachable_invariant g' Hreach).
Qed.

(** ** Papers and newspapers *)

Lemma empty_street_loaded : loaded empty_street.
Proof. exists [], [], [], [], page0. repeat split. Qed.

Lemma many_throws_reachable : Reachable many_throws.
Proof.
  apply Reachable_run; [apply reach_loaded, empty_street_loaded|].
  vm_compute. repeat split.
Qed.

(** C6 as the specification words it fails once more than half of the
    papers are thrown: after 51 throws 49 papers remain and the
    array holds 51 newspapers. *)
Lemma newspapers_outnumber_papers_counterexample :
  Reachable many_throws /\
  Game.papers many_throws = 49%Z /\
  length (Game.newspapers many_throws) = 51%nat /\
  (Z.of_nat (length (Game.newspapers many_throws)) > Game.papers many_throws)%Z.
Proof.
  split; [exact many_throws_reachable|].
  split; [vm_compute; reflexivity|]. split; [vm_compute; reflexivity|].
  vm_compute. reflexivity.
Qed.

(** C6, as the code has it.  In every reachable state the paper count
    lies between 0 and 100 and the newspaper array holds at most as many
    newspapers as papers were spent since the game was started or
    restarted: its length is at most 100 minus the paper count. *)
Theorem newspapers_bounded_by_spent_papers (g : Game.t) :
  Reachable g ->
  (0 <= Game.papers g <= 100)%Z /\
  (Z.of_nat (length (Game.newspapers g)) <= 100 - Game.papers g)%Z.
Proof.
  intros Hreach.
  destruct (Reachable_invariant g Hreach) as (Hpapers & Hcount & _).
  lia.
Qed.

Lemma newspapers_bounded_by_spent_papers_witness :
  Reachable many_throws /\
  (0 <= Game.papers many_throws <= 100)%Z /\
  (Z.of_nat (length (Game.newspapers many_throws)) <= 100 - Game.papers many_throws)%Z.
Proof.
  split; [exact many_throws_reachable|].
  exact (newspapers_bounded_by_spent_papers many_throws many_throws_reachable).
Defined.

(** ** The end of the game *)

Lemma length_zero_nil {A : Type} (l : list A) :
  (length l =? 0)%nat = true <-> l = [].
Proof.
  rewrite Nat.eqb_eq. split; [apply nil_length_inv|now intros ->].
Qed.

(** C3.  A frame that starts in a reachable state with the game active
    leaves it inactive exactly when a collision of this frame took the
    last life, or no paper is left and the newspaper array is empty once
    [updateNewspapers] has run; otherwise the game is still active. *)
Theorem game_over_conditions (g : Game.t) (dt : Q) :
  Reachable g ->
  Game.isActive g = true ->
  let g' := Game.animate dt g in
  let terminal :=
    (Game.checkObstacleCollisions g).2 = true /\ Game.lives g' = 0%Z
    \/ Game.papers g' = 0%Z /\ Game.newspapers g' = [] in
  (Game.isActive g' = false <-> terminal) /\
  (~ terminal -> Game.isActive g' = true).
Proof.
  intros Hreach Hactive g' terminal.
  assert (Hiff : Game.isActive g' = false <-> terminal).
  { subst g' terminal.
    destruct (Reachable_invariant g Hreach) as (Hpapers & _ & Hlives & _).
    specialize (Hlives Hactive).
    destruct (animate_active dt g Hactive) as (g1 & Hcases & ->). cbv zeta.
    pose proof (newspapers_pass_fields _ _ (updateNewspapers_pass g1))
      as (_ & _ & _ & _ & Hact & Hpap & Hliv & _).
    set (g2 := Game.updateNewspapers g1) in *. clearbody g2.
    assert (Hg1 : Game.papers g1 = Game.papers g /\
                  ((Game.checkObstacleCollisions g).2 = false /\
                     Game.lives g1 = Game.lives g /\ Game.isActive g1 = true
                   \/
                   (Game.checkObstacleCollisions g).2 = true /\
                     Game.lives g1 = (Game.lives g - 1)%Z /\
                     Game.isActive g1 = (if (Game.lives g - 1 <=? 0)%Z then false else true))).
    { destruct Hcases as [[Hhit ->]|(Hhit & _ & ->)].
      - cbn. split; [reflexivity|]. left. auto.
      - destruct (collide_fields
                    (Game.set_gameTime (Game.gameTime g + dt) (Game.set_deltaTime dt g)))
          as (Hcp & _ & _ & _ & _ & Hca).
        destruct (collide_effect
                    (Game.set_gameTime (Game.gameTime g + dt) (Game.set_deltaTime dt g)))
          as (Hcl & _).
        rewrite Hcp, Hcl, Hca. cbn. rewrite Hactive.
        split; [reflexivity|]. right. auto. }
    clear Hcases. destruct Hg1 as (Hp1 & Hg1).
    rewrite Hp1 in Hpap. rewrite <- Hact, <- Hliv in Hg1. clear Hact Hliv Hp1.
    clear g1.
    destruct ((Game.papers g2 <=? 0)%Z && (length (Game.newspapers g2) =? 0)%nat &&
              (Game.lives g2 >? 0)%Z) eqn:Hend.
    - apply andb_true_iff in Hend as [Hend Hl2].
      apply andb_true_iff in Hend as [Hp2 Hn2].
      apply Z.leb_le in Hp2. apply length_zero_nil in Hn2.
      cbn. split; [intros _|reflexivity]. right. split; [lia|exact Hn2].
    - assert (Hnot : ~ (Game.papers g2 = 0%Z /\ Game.newspapers g2 = [] /\
                        (0 < Game.lives g2)%Z)).
      { intros (Hp2 & Hn2 & Hl2).
        rewrite Hp2, Hn2 in Hend. cbn in Hend.
        destruct (Z.gtb_spec (Game.lives g2) 0); [discriminate|lia]. }
      destruct Hg1 as [(Hhit & Hl2 & Ha2)|(Hhit & Hl2 & Ha2)]; rewrite Hhit.
      + split.
        * intros Hoff. congruence.
        * intros [[Habs _]|[Hp2 Hn2]]; [discriminate|].
          exfalso. apply Hnot. repeat split; [assumption|assumption|lia].
      + destruct (Z.leb_spec (Game.lives g - 1) 0).
        * split; [intros _|intros _; exact Ha2]. left. split; [reflexivity|lia].
        * split.
          -- intros Hoff. congruence.
          -- intros [[_ Habs]|[Hp2 Hn2]]; [lia|].
             exfalso. apply Hnot. repeat split; [assumption|assumption|lia]. }
  split; [exact Hiff|].
  intros Hnot. destruct (Game.isActive g') eqn:Hact'; [reflexivity|].
  exfalso. apply Hnot. now apply Hiff.
Qed.

Lemma last_life_reachable : Reachable last_life.
Proof.
  apply Reachable_run.
  - apply reach_loaded. exists [], [parked_car], [], [], page0. repeat split.
  - vm_compute. repeat split; discriminate.
Qed.

Lemma game_over_conditions_witness :
  Reachable last_life /\
  Game.isActive last_life = true /\
  Game.isActive (Game.animate 1 last_life) = false /\
  Game.lives (Game.animate 1 last_life) = 0%Z.
Proof.
  split; [exact last_life_reachable|]. split; [vm_compute; reflexivity|].
  split; [|vm_compute; reflexivity].
  apply (proj1 (game_over_conditions last_life 1 last_life_reachable eq_refl)).
  left. split; vm_compute; reflexivity.
Defined.

(** ** [getElementById] *)

(** C7 as the specification words it fails on a missing element:
    the helper logs the error and returns [null], the value
    [document.getElementById] gave it, not [undefined]. *)
Lemma getElementById_missing_counterexample :
  page_without_final_score !! "final-score"%string = None /\
  DOM.getElementById page_without_final_score [] "final-score"
    = (DOM.null, [DOM.not_found_message "final-score"]) /\
  (DOM.getElementById page_without_final_score [] "final-score").1 <> DOM.undefined.
Proof.
  split; [vm_compute; reflexivity|]. split; [vm_compute; reflexivity|].
  vm_compute. discriminate.
Qed.

(** C7, as the code has it.  For every id, [getElementById] returns the
    element that carries the id and logs nothing when there is one; when
    there is none it appends one error message that names the id to the
    console and returns [null]. *)
Theorem getElementById_result {Element : Type} (document : gmap string Element)
    (console : list string) (id : string) :
  (forall e, document !! id = Some e ->
     DOM.getElementById document console id = (DOM.element e, console)) /\
  (document !! id = None ->
     DOM.getElementById document console id
       = (DOM.null, console ++ [DOM.not_found_message id])).
Proof.
  unfold DOM.getElementById, DOM.document_getElementById.
  split; [intros e Hsome|intros Hnone].
  - now rewrite Hsome.
  - now rewrite Hnone.
Qed.

(** ** The removal of grounded newspapers *)

Lemma late_throw_reachable : Reachable late_throw.
Proof.
  apply Reachable_run; [apply reach_loaded, empty_street_loaded|].
  vm_compute. repeat split; discriminate.
Qed.

(** C5.  The removal test reads the clock of the game, not the time
    since the newspaper came to rest: past the thirtieth second a newspaper that
    is in the air when the frame starts is grounded and removed by that
    same frame. *)
Theorem grounded_newspaper_removed_at_once :
  Reachable late_throw /\
  (exists n, Game.newspapers late_throw = [n] /\ airborne n) /\
  Game.newspapers (Game.animate 0.016 late_throw) = [].
Proof.
  split; [exact late_throw_reachable|]. split.
  - eexists. split; [vm_compute; reflexivity|]. split; reflexivity.
  - vm_compute. reflexivity.
Qed.

(** * More facts

    ** utils.js *)

Lemma Number_ltb_ext (a a' b b' : Q) :
  a == a' -> b == b' -> Number.ltb a b = Number.ltb a' b'.
Proof.
  intros Ha Hb.
  destruct (Number.ltb a b) eqn:E, (Number.ltb a' b') eqn:E'; try reflexivity.
  - apply Number_ltb_lt in E. apply Number_ltb_ge in E'. lra.
  - apply Number_ltb_ge in E. apply Number_ltb_lt in E'. lra.
Qed.

Lemma Qabs_swap (a b : Q) : Qabs (a - b) == Qabs (b - a).
Proof. now rewrite Qabs_Qminus. Qed.

(** X1.  [checkCollision] is symmetric: whichever of two objects is
    passed first, the answer is the same. *)
Theorem checkCollision_symmetric {A B : Type} `{Collidable A} `{Collidable B}
    (obj1 : A) (obj2 : B) :
  checkCollision obj1 obj2 = checkCollision obj2 obj1.
Proof.
  unfold checkCollision, Math.abs. cbv zeta. f_equal.
  - apply Number_ltb_ext; [apply Qabs_swap|lra].
  - apply Number_ltb_ext; [apply Qabs_swap|lra].
Qed.

(** X2.  With [Math.random()] in [0, 1) and [min < max],
    [getRandomNumber] returns a number of [min, max): the lower bound
    can be returned, the upper bound never is. *)
Theorem getRandomNumber_range (random min max : Q) :
  0 <= random -> random < 1 -> min < max ->
  min <= getRandomNumber random min max /\ getRandomNumber random min max < max.
Proof.
  intros H0 H1 Hlt. unfold getRandomNumber. split; nra.
Qed.

Lemma getRandomNumber_range_witness :
  0 <= 0.5 /\ 0.5 < 1 /\ (0.7 : Q) < 1.2 /\
  0.7 <= getRandomNumber 0.5 0.7 1.2 /\ getRandomNumber 0.5 0.7 1.2 < 1.2.
Proof.
  assert (H0 : 0 <= 0.5) by lra. assert (H1 : 0.5 < 1) by lra.
  assert (Hlt : (0.7 : Q) < 1.2) by lra.
  split; [exact H0|]. split; [exact H1|]. split; [exact Hlt|].
  exact (getRandomNumber_range 0.5 0.7 1.2 H0 H1 Hlt).
Defined.

(** X3.  With [Math.random()] in [0, 1) and an integer between the two
    bounds, [getRandomInt] returns an integer between the ceiling of
    [min] and the floor of [max], both included. *)
Theorem getRandomInt_range (random min max : Q) :
  0 <= random -> random < 1 -> (Qceiling min <= Qfloor max)%Z ->
  exists k : Z,
    getRandomInt random min max == inject_Z k /\
    (Qceiling min <= k <= Qfloor max)%Z.
Proof.
  intros H0 H1 Hbounds. unfold getRandomInt, Math_floor, Math_ceil.
  set (lo := Qceiling min) in *. set (hi := Qfloor max) in *.
  set (span := inject_Z hi - inject_Z lo + 1).
  assert (Hspan : span == inject_Z (hi - lo + 1)).
  { unfold span, Z.sub. rewrite !inject_Z_plus, inject_Z_opp. unfold Qminus. reflexivity. }
  assert (Hpos : 1 <= span).
  { rewrite Hspan. change 1 with (inject_Z 1). rewrite <- Zle_Qle. lia. }
  exists (Qfloor (random * span) + lo)%Z. split.
  - rewrite inject_Z_plus. reflexivity.
  - assert (Hlow : (0 <= Qfloor (random * span))%Z).
    { change 0%Z with (Qfloor 0). apply Qfloor_resp_le. nra. }
    assert (Hhigh : (Qfloor (random * span) < hi - lo + 1)%Z).
    { rewrite Zlt_Qlt, <- Hspan.
      apply Qle_lt_trans with (random * span); [apply Qfloor_le|nra]. }
    lia.
Qed.

Lemma getRandomInt_range_witness :
  0 <= 0.99 /\ 0.99 < 1 /\ (Qceiling 0 <= Qfloor 2)%Z /\
  exists k : Z, getRandomInt 0.99 0 2 == inject_Z k /\
                (Qceiling 0 <= k <= Qfloor 2)%Z.
Proof.
  assert (H0 : 0 <= 0.99) by lra. assert (H1 : 0.99 < 1) by lra.
  assert (Hb : (Qceiling 0 <= Qfloor 2)%Z) by (vm_compute; discriminate).
  split; [exact H0|]. split; [exact H1|]. split; [exact Hb|].
  exact (getRandomInt_range 0.99 0 2 H0 H1 Hb).
Defined.

(** ** Hills and jumps *)

Lemma onHillAmong_spec (p : Player.t) (obs : list Obstacle.t) :
  Game.onHillAmong p obs = true <->
  exists obstacle, obstacle ∈ obs /\ Obstacle.type obstacle = hill /\
                   standsOn p obstacle.
Proof.
  induction obs as [|o obs IH]; simpl.
  - split; [discriminate|]. intros (o & Ho & _). inversion Ho.
  - assert (Htest : Number.ltb
                      (Math.abs (THREE.x (Player.position p) - THREE.x (Obstacle.position o)))
                      (Obstacle.width o / 2) &&
                    Number.ltb
                      (Math.abs (THREE.z (Player.position p) - THREE.z (Obstacle.position o)))
                      (Obstacle.depth o / 2) = true <-> standsOn p o).
    { unfold standsOn, Math.abs. rewrite andb_true_iff, !Number_ltb_lt. tauto. }
    destruct (decide (Obstacle.type o = hill)) as [Hhill|Hhill].
    + destruct (_ && _) eqn:Hon.
      * split; [intros _|reflexivity]. exists o.
        split; [now left|]. split; [exact Hhill|now apply Htest].
      * rewrite IH. split.
        -- intros (o' & Hin & Hty & Hst). exists o'. split; [now right|auto].
        -- intros (o' & Hin & Hty & Hst).
           apply elem_of_cons in Hin as [->|Hin]; [|now exists o'].
           apply Htest in Hst. discriminate.
    + rewrite IH. split.
      * intros (o' & Hin & Hty & Hst). exists o'. split; [now right|auto].
      * intros (o' & Hin & Hty & Hst).
        apply elem_of_cons in Hin as [->|Hin]; [contradiction|now exists o'].
Qed.

(** ** [updateNewspapers] as a whole *)

Lemma same_field_pass (g g' : Game.t) : newspapers_pass g g' -> same_field g g'.
Proof.
  intros H. apply newspapers_pass_fields in H. unfold same_field. tauto.
Qed.

Lemma moved_same_field (g g' : Game.t) (n : Newspaper.t) :
  same_field g g' -> Game.moved g' n = Game.moved g n.
Proof. intros (Hw & _). unfold Game.moved. now rewrite Hw. Qed.

(** The newspaper a pass leaves and the points it gives depend on the
    walls, the mailboxes and the porches only. *)
Lemma updateNewspaper_same_field (g g' : Game.t) (n : Newspaper.t) :
  same_field g g' ->
  updated g' n = updated g n /\ awarded g' n = awarded g n.
Proof.
  intros Hsame. pose proof (moved_same_field g g' n Hsame) as Hmoved.
  destruct Hsame as (_ & Hm & Hp & _).
  unfold updated, awarded, Game.updateNewspaper.
  destruct (Newspaper.thrown n && negb (Newspaper.delivered n)); [|split; cbn; lia || reflexivity].
  destruct (updateAirborne_cases g n)
    as [[(m & Hin & Hz) Heq]|[(Hnone & (p & Hin & Hz) & Heq)|(Hnone & Hnone' & Heq)]];
    destruct (updateAirborne_cases g' n)
      as [[(m' & Hin' & Hz') Heq']|[(Hnone2 & (p' & Hin' & Hz') & Heq')|(Hnone2 & Hnone2' & Heq')]];
    rewrite Heq, Heq'; rewrite ?Hmoved, ?Hm, ?Hp in *; cbn [fst snd];
    try (split; [reflexivity|cbn; lia]);
    exfalso.
  - rewrite (Hnone2 m Hin) in Hz. discriminate.
  - rewrite (Hnone2 m Hin) in Hz. discriminate.
  - rewrite (Hnone m' Hin') in Hz'. discriminate.
  - rewrite (Hnone2' p Hin) in Hz. discriminate.
  - rewrite (Hnone m' Hin') in Hz'. discriminate.
  - rewrite (Hnone' p' Hin') in Hz'. discriminate.
Qed.

Lemma expired_same_field (g g' : Game.t) (n : Newspaper.t) :
  same_field g g' -> Game.expired g' n = Game.expired g n.
Proof. intros (_ & _ & _ & Ht). unfold Game.expired. now rewrite Ht. Qed.

Lemma total_app (l1 l2 : list Z) : total (l1 ++ l2) = (total l1 + total l2)%Z.
Proof.
  unfold total. induction l1 as [|a l1 IH]; cbn; [reflexivity|]. rewrite IH. lia.
Qed.

(** The sweep, from any state the loop passes through. *)
Lemma sweep_spec (g : Game.t) (rs : list Newspaper.t) (g1 : Game.t)
    (kept : list Newspaper.t) :
  newspapers_pass g g1 ->
  newspapers_pass g (sweep rs g1 kept).1 /\
  (sweep rs g1 kept).2 =
    filter (fun n' => Game.expired g n' = false) (map (updated g) (rev rs)) ++ kept /\
  Game.score (sweep rs g1 kept).1 =
    (Game.score g1 + total (map (awarded g) (rev rs)))%Z.
Proof.
  revert g1 kept. induction rs as [|n rs IH]; intros g1 kept Hpass.
  - cbn. split; [exact Hpass|]. split; [reflexivity|lia].
  - cbn [sweep rev].
    destruct (updateNewspaper_same_field g g1 n (same_field_pass _ _ Hpass))
      as [Hupdated Hawarded].
    destruct (updateNewspaper_pass g1 n) as [Hpass1 _].
    unfold updated, awarded in Hupdated, Hawarded.
    destruct (Game.updateNewspaper g1 n) as [g2 n'] eqn:Hbody. cbn [fst snd] in *.
    assert (Hpass2 : newspapers_pass g g2) by (eapply newspapers_pass_trans; eassumption).
    rewrite (expired_same_field g g2 n' (same_field_pass _ _ Hpass2)).
    destruct (IH g2 (if Game.expired g n' then kept else n' :: kept) Hpass2)
      as (Hp & Hl & Hs).
    split; [exact Hp|]. split.
    + rewrite Hl, map_app, filter_app, <- app_assoc. f_equal.
      cbn [map]. fold (updated g n). unfold updated at 1. rewrite <- Hupdated.
      destruct (Game.expired g n') eqn:Hexp.
      * rewrite filter_cons_False by (rewrite Hexp; discriminate). reflexivity.
      * rewrite filter_cons_True by exact Hexp. reflexivity.
    + rewrite Hs, map_app, total_app. cbn [map].
      replace (total [awarded g n]) with (awarded g n) by (unfold total; cbn; lia).
      unfold awarded. lia.
Qed.

Lemma updateNewspapers_spec (g : Game.t) :
  Game.newspapers (Game.updateNewspapers g) =
    filter (fun n' => Game.expired g n' = false) (map (updated g) (Game.newspapers g)) /\
  Game.score (Game.updateNewspapers g) =
    (Game.score g + total (map (awarded g) (Game.newspapers g)))%Z.
Proof.
  rewrite updateNewspapers_sweep.
  destruct (sweep_spec g (rev (Game.newspapers g)) g [] (newspapers_pass_refl g))
    as (_ & Hl & Hs).
  cbn [Game.newspapers Game.score Game.set_newspapers].
  rewrite Hl, Hs, rev_involutive, app_nil_r. split; reflexivity.
Qed.

(** ** The player's jump *)

Lemma jumpView_updateJump (p : Player.t) :
  jumpView (Player.updateJump p) = jumpStep (jumpView p).
Proof.
  unfold jumpView, jumpStep, Player.updateJump.
  destruct (Player.isJumping p) eqn:Hjumping; [|now rewrite Hjumping].
  cbn. destruct (Number.leb _ _); cbn; rewrite ?Hjumping; reflexivity.
Qed.

Lemma jumpView_updateInvincibility (dt : Q) (p : Player.t) :
  jumpView (Player.updateInvincibility dt p) = jumpView p.
Proof.
  unfold jumpView, Player.updateInvincibility. case_ifs; reflexivity.
Qed.

Lemma jumpView_update (dt : Q) (p : Player.t) :
  jumpView (Player.update dt p) = jumpStep (jumpView p).
Proof.
  unfold Player.update. cbv zeta.
  rewrite jumpView_updateInvincibility.
  match goal with
  | |- jumpView (Player.set_object_position _ (Player.updateJump ?p0)) = _ =>
      change (jumpView (Player.updateJump p0) = jumpStep (jumpView p));
      rewrite jumpView_updateJump
  end.
  reflexivity.
Qed.

Lemma fold_left_cons {A B : Type} (f : A -> B -> A) (b : B) (l : list B) (a : A) :
  fold_left f (b :: l) a = fold_left f l (f a b).
Proof. reflexivity. Qed.

Lemma Player_updates_cons (dt : Q) (dts : list Q) (p : Player.t) :
  Player_updates (dt :: dts) p = Player_updates dts (Player.update dt p).
Proof. exact (fold_left_cons (fun p dt => Player.update dt p) dt dts p). Qed.

Lemma jumpView_updates (dts : list Q) (p : Player.t) :
  jumpView (Player_updates dts p) = Nat.iter (length dts) jumpStep (jumpView p).
Proof.
  revert p. induction dts as [|dt dts IH]; intros p; [reflexivity|].
  rewrite Player_updates_cons, IH, jumpView_update.
  change (length (dt :: dts)) with (S (length dts)).
  now rewrite Nat.iter_succ_r.
Qed.

Lemma jumpStep_grounded (k : nat) (y vy ground : Q) (canJump : bool) :
  Nat.iter k jumpStep (y, vy, false, canJump, ground) = (y, vy, false, canJump, ground).
Proof. induction k as [|k IH]; [reflexivity|]. now rewrite Nat.iter_succ, IH. Qed.

Lemma airborneFor_spec (k : nat) (v : Q * Q * bool * bool * Q) :
  airborneFor k v = true ->
  forall j, (1 <= j <= k)%nat -> inTheAir (Nat.iter j jumpStep v) = true.
Proof.
  revert v. induction k as [|k IH]; intros v Hk j Hj; [lia|].
  cbn [airborneFor] in Hk. apply andb_true_iff in Hk as [Hfirst Hrest].
  destruct j as [|j]; [lia|]. rewrite Nat.iter_succ_r.
  destruct j as [|j]; [exact Hfirst|].
  apply IH; [exact Hrest|lia].
Qed.

(** The 41 updates of a jump from height 1 at speed 0.2. *)
Lemma jump_profile :
  airborneFor 40 (1, 0.2, true, false, 1) = true /\
  Nat.iter 41 jumpStep (1, 0.2, true, false, 1) = (1, 0, false, true, 1).
Proof. split; vm_compute; reflexivity. Qed.

Lemma jumpView_startJump (p : Player.t) :
  standing p -> jumpView (Player.startJump p) = (1, 0.2, true, false, 1).
Proof.
  intros (Hjumping & Hy & Hground & Hspeed).
  unfold jumpView, Player.startJump. rewrite Hjumping. cbn.
  now rewrite Hy, Hground, Hspeed.
Qed.

(** X4.  A jump started on the ground at height 1 with jump speed 0.2
    takes exactly 41 calls of [update], whatever the delta times: after
    1 to 40 calls the player is still jumping, cannot jump again, and is
    above the ground and no higher than 3.1; from the 41st call on it
    stands at height 1 again with no vertical velocity and can jump. *)
Theorem jump_takes_41_updates (dts : list Q) (p : Player.t) :
  standing p ->
  let p' := Player_updates dts (Player.startJump p) in
  ((1 <= length dts <= 40)%nat ->
     Player.isJumping p' = true /\ Player.canJump p' = false /\
     1 < THREE.y (Player.position p') /\ THREE.y (Player.position p') <= 3.1) /\
  ((41 <= length dts)%nat ->
     Player.isJumping p' = false /\ Player.canJump p' = true /\
     THREE.y (Player.position p') = 1 /\ THREE.y (Player.velocity p') = 0).
Proof.
  intros Hstanding p'.
  pose proof (jumpView_updates dts (Player.startJump p)) as Hview.
  rewrite (jumpView_startJump p Hstanding) in Hview. fold p' in Hview.
  destruct jump_profile as [Hair Hland]. split; intros Hlen.
  - pose proof (airborneFor_spec _ _ Hair (length dts) Hlen) as Hin.
    rewrite <- Hview in Hin. unfold inTheAir, jumpView in Hin.
    apply andb_true_iff in Hin as [Hin Hmax].
    apply andb_true_iff in Hin as [Hin Hmin].
    apply andb_true_iff in Hin as [Hj Hc].
    apply negb_true_iff in Hc. apply Number_ltb_lt in Hmin.
    apply Number_leb_le in Hmax. auto.
  - replace (length dts) with ((length dts - 41) + 41)%nat in Hview by lia.
    rewrite Nat.iter_add, Hland, jumpStep_grounded in Hview.
    unfold jumpView in Hview. inversion Hview. auto.
Qed.

Lemma jump_takes_41_updates_witness :
  standing Player.create /\
  Player.isJumping (Player_updates (repeat 0.016 41) (Player.startJump Player.create)) = false /\
  THREE.y (Player.position
             (Player_updates (repeat 0.016 41) (Player.startJump Player.create))) = 1.
Proof.
  assert (Hstanding : standing Player.create) by (repeat split).
  split; [exact Hstanding|].
  destruct (jump_takes_41_updates (repeat 0.016 41) Player.create Hstanding) as [_ Hland].
  destruct (Hland (Nat.le_refl 41)) as (Hj & _ & Hy & _).
  split; [exact Hj|exact Hy].
Defined.

(** ** Invincibility *)

Lemma run_cons (e : Event) (es : list Event) (g : Game.t) :
  run (e :: es) g = run es (handle e g).
Proof. reflexivity. Qed.

Lemma invincibilityView_updateJump (p : Player.t) :
  invincibilityView (Player.updateJump p) = invincibilityView p.
Proof.
  unfold invincibilityView, Player.updateJump. case_ifs; reflexivity.
Qed.

Lemma invincibilityView_updateInvincibility (dt : Q) (p : Player.t) :
  invincibilityView (Player.updateInvincibility dt p) =
  invincibilityStep dt (invincibilityView p).
Proof.
  unfold invincibilityView, invincibilityStep, Player.updateInvincibility.
  destruct (Player.isInvincible p) eqn:Hinv; [|now rewrite Hinv].
  cbn. destruct (Number.gtb (Player.blinkTime p + dt) 0.1); cbn;
    destruct (Number.gtb (Player.invincibleTime p + dt) 2); cbn;
    rewrite ?Hinv; reflexivity.
Qed.

Lemma invincibilityView_update (dt : Q) (p : Player.t) :
  invincibilityView (Player.update dt p) = invincibilityStep dt (invincibilityView p).
Proof.
  unfold Player.update. cbv zeta.
  rewrite invincibilityView_updateInvincibility.
  match goal with
  | |- invincibilityStep dt (invincibilityView
         (Player.set_object_position ?v (Player.updateJump ?p0))) = _ =>
      change (invincibilityStep dt (invincibilityView (Player.updateJump p0))
              = invincibilityStep dt (invincibilityView p));
      rewrite invincibilityView_updateJump
  end.
  reflexivity.
Qed.

Lemma update_stays_invincible (dt : Q) (p : Player.t) :
  Player.isInvincible p = true ->
  Player.invincibleTime p + dt <= 2 ->
  Player.isInvincible (Player.update dt p) = true /\
  Player.invincibleTime (Player.update dt p) = Player.invincibleTime p + dt.
Proof.
  intros Hinv Htime. pose proof (invincibilityView_update dt p) as Hview.
  unfold invincibilityView, invincibilityStep in Hview. rewrite Hinv in Hview.
  assert (Hle : Number.gtb (Player.invincibleTime p + dt) 2 = false).
  { unfold Number.gtb. now apply Number_ltb_ge. }
  cbv zeta in Hview. rewrite Hle in Hview.
  destruct (Number.gtb (Player.blinkTime p + dt) 0.1); inversion Hview; auto.
Qed.

Lemma update_ends_invincibility (dt : Q) (p : Player.t) :
  Player.isInvincible p = true ->
  2 < Player.invincibleTime p + dt ->
  Player.isInvincible (Player.update dt p) = false /\
  Player.object_visible (Player.update dt p) = true.
Proof.
  intros Hinv Htime. pose proof (invincibilityView_update dt p) as Hview.
  unfold invincibilityView, invincibilityStep in Hview. rewrite Hinv in Hview.
  assert (Hgt : Number.gtb (Player.invincibleTime p + dt) 2 = true).
  { now apply Number_gtb_gt. }
  cbv zeta in Hview. rewrite Hgt in Hview.
  destruct (Number.gtb (Player.blinkTime p + dt) 0.1); inversion Hview; auto.
Qed.

(** ** The frame, in more detail *)

Lemma awarded_nonneg (g : Game.t) (n : Newspaper.t) : (0 <= awarded g n <= 20)%Z.
Proof.
  destruct (awarded_cases g n) as [[-> _]|([-> | ->] & _)]; lia.
Qed.

Lemma total_awarded_bounds (g : Game.t) (ns : list Newspaper.t) :
  (0 <= total (map (awarded g) ns) <= 20 * Z.of_nat (length ns))%Z.
Proof.
  induction ns as [|n ns IH]; [cbn; lia|].
  cbn [map length]. unfold total in *. cbn [foldr].
  pose proof (awarded_nonneg g n). lia.
Qed.

Lemma updateNewspapers_score_le (g : Game.t) :
  (Game.score g <= Game.score (Game.updateNewspapers g))%Z.
Proof.
  destruct (updateNewspapers_spec g) as [_ ->].
  pose proof (total_awarded_bounds g (Game.newspapers g)). lia.
Qed.

Lemma finish_more (c : bool) (g : Game.t) :
  let g' := if c then Game.endGame g else g in
  Game.score g' = Game.score g /\ Game.keys g' = Game.keys g /\
  Game.gameTime g' = Game.gameTime g /\
  UI.scoreElement (Game.ui g') = UI.scoreElement (Game.ui g) /\
  UI.papersElement (Game.ui g') = UI.papersElement (Game.ui g) /\
  UI.livesElement (Game.ui g') = UI.livesElement (Game.ui g).
Proof. destruct c; cbn; repeat split. Qed.

(** What a frame does to the player, the lives, the score, the clock
    and the key table. *)
Lemma animate_outcome (dt : Q) (g : Game.t) :
  Game.isActive g = true ->
  let g' := Game.animate dt g in
  Game.keys g' = Game.keys g /\
  Game.gameTime g' = Game.gameTime g + dt /\
  ((Game.checkObstacleCollisions g).2 = false /\
     Game.player g' = Player.update dt (Game.player g) /\
     Game.lives g' = Game.lives g /\
     (Game.score g <= Game.score g')%Z
   \/
   (Game.checkObstacleCollisions g).2 = true /\
     Player.isInvincible (Game.player g) = false /\
     Game.player g' = Player.makeInvincible (Game.player g) /\
     Game.lives g' = (Game.lives g - 1)%Z /\
     (Game.score g - 5 <= Game.score g')%Z).
Proof.
  intros Hactive g'. subst g'.
  destruct (animate_active dt g Hactive) as (g1 & Hcases & ->). cbv zeta.
  pose proof (newspapers_pass_fields _ _ (updateNewspapers_pass g1))
    as (_ & Hpl & Hk & _ & _ & _ & Hliv & _ & _ & _ & Ht & _).
  pose proof (updateNewspapers_score_le g1) as Hscore.
  set (g2 := Game.updateNewspapers g1) in *. clearbody g2.
  match goal with |- context [if ?c then Game.endGame g2 else g2] =>
    destruct (finish_fields c g2) as (_ & Hliv' & _ & Hpl' & _);
    destruct (finish_more c g2) as (Hs' & Hk' & Ht' & _);
    set (g3 := if c then Game.endGame g2 else g2) in *
  end.
  clearbody g3. rewrite Hk', Ht', Hpl', Hliv', Hs', Hk, Ht, Hpl, Hliv.
  destruct Hcases as [[Hhit ->]|(Hhit & Hinv & ->)].
  - cbn in *. split; [reflexivity|]. split; [reflexivity|]. left. auto.
  - destruct (collide_effect
                (Game.set_gameTime (Game.gameTime g + dt) (Game.set_deltaTime dt g)))
      as (Hcl & Hcs & _).
    rewrite Hcl. rewrite Hcs in Hscore. cbn in Hscore |- *.
    split; [unfold Game.collide; cbn; case_ifs; reflexivity|].
    split; [unfold Game.collide; cbn; case_ifs; reflexivity|].
    right. split; [exact Hhit|]. split; [exact Hinv|].
    split; [unfold Game.collide; cbn; case_ifs; reflexivity|]. split; [reflexivity|lia].
Qed.

(** X5.  Invincibility lasts two seconds of frame time: while the
    player is invincible, frames whose delta times bring the
    invincibility timer to at most 2 cost no life and no points and
    leave the player invincible, whatever the obstacles. *)
Theorem invincibility_protects_for_two_seconds (dts : list Q) (g : Game.t) :
  Player.isInvincible (Game.player g) = true ->
  Forall (fun dt => 0 <= dt) dts ->
  Player.invincibleTime (Game.player g) + sum dts <= 2 ->
  let g' := run (map Frame dts) g in
  Game.lives g' = Game.lives g /\
  (Game.score g <= Game.score g')%Z /\
  Player.isInvincible (Game.player g') = true.
Proof.
  revert g. induction dts as [|dt dts IH]; intros g Hinv Hdts Htime.
  - cbn. split; [reflexivity|]. split; [lia|exact Hinv].
  - apply Forall_cons in Hdts as [Hdt Hdts].
    assert (Hsum : 0 <= sum dts).
    { clear -Hdts. induction Hdts as [|d ds Hd _ IHs]; [cbn; lra|].
      unfold sum in *. cbn. lra. }
    unfold sum in Htime, Hsum. cbn [foldr] in Htime. fold (sum dts) in Htime, Hsum.
    cbn [map]. rewrite run_cons. cbn [handle]. cbv zeta.
    destruct (Game.isActive g) eqn:Hactive.
    + destruct (animate_outcome dt g Hactive)
        as (_ & _ & [(_ & Hpl & Hl & Hs)|(_ & Hvul & _)]); [|congruence].
      destruct (update_stays_invincible dt (Game.player g) Hinv) as [Hinv' Htime'];
        [lra|].
      rewrite <- Hpl in Hinv', Htime'.
      destruct (IH (Game.animate dt g) Hinv' Hdts) as (IHl & IHs & IHi);
        [rewrite Htime'; lra|].
      cbv zeta in IHl, IHs, IHi. rewrite IHl, Hl.
      split; [reflexivity|]. split; [lia|exact IHi].
    + rewrite (animate_inactive dt g Hactive).
      destruct (IH (Game.set_deltaTime dt g) Hinv Hdts) as (IHl & IHs & IHi);
        [cbn; lra|].
      exact (conj IHl (conj IHs IHi)).
Qed.

Lemma invincibility_protects_for_two_seconds_witness :
  Player.isInvincible (Game.player just_hit) = true /\
  Game.lives (run (map Frame [0.5; 1; 0.5]) just_hit) = Game.lives just_hit /\
  Player.isInvincible (Game.player (run (map Frame [0.5; 1; 0.5]) just_hit)) = true.
Proof.
  assert (Hinv : Player.isInvincible (Game.player just_hit) = true)
    by (vm_compute; reflexivity).
  assert (Hdts : Forall (fun dt => 0 <= dt) [0.5; 1; 0.5])
    by (repeat constructor; discriminate).
  assert (Htime : Player.invincibleTime (Game.player just_hit) + sum [0.5; 1; 0.5] <= 2)
    by (vm_compute; discriminate).
  destruct (invincibility_protects_for_two_seconds [0.5; 1; 0.5] just_hit Hinv Hdts Htime)
    as (Hl & _ & Hi).
  split; [exact Hinv|]. split; [exact Hl|exact Hi].
Defined.

(** X6.  Invincibility ends with the first frame that brings the timer
    above 2: after it the player can be hit again and its mesh is
    shown. *)
Theorem invincibility_ends_after_two_seconds (dt : Q) (g : Game.t) :
  Game.isActive g = true ->
  Player.isInvincible (Game.player g) = true ->
  2 < Player.invincibleTime (Game.player g) + dt ->
  Player.isInvincible (Game.player (Game.animate dt g)) = false /\
  Player.object_visible (Game.player (Game.animate dt g)) = true.
Proof.
  intros Hactive Hinv Htime.
  destruct (animate_outcome dt g Hactive)
    as (_ & _ & [(_ & Hpl & _)|(_ & Hvul & _)]); [|congruence].
  cbv zeta in Hpl. rewrite Hpl. now apply update_ends_invincibility.
Qed.

Lemma invincibility_ends_after_two_seconds_witness :
  Game.isActive just_hit = true /\
  Player.isInvincible (Game.player just_hit) = true /\
  Player.isInvincible (Game.player (Game.animate 3 just_hit)) = false.
Proof.
  assert (Hactive : Game.isActive just_hit = true) by (vm_compute; reflexivity).
  assert (Hinv : Player.isInvincible (Game.player just_hit) = true)
    by (vm_compute; reflexivity).
  assert (Htime : 2 < Player.invincibleTime (Game.player just_hit) + 3)
    by (vm_compute; reflexivity).
  split; [exact Hactive|]. split; [exact Hinv|].
  exact (proj1 (invincibility_ends_after_two_seconds 3 just_hit Hactive Hinv Htime)).
Defined.

(** ** What the callbacks do to the player *)

Lemma Controls_update_player (g : Game.t) :
  player_step (Game.player g) (Game.player (Controls.update g)).
Proof.
  unfold Controls.update.
  destruct (Game.isActive g); cbn [negb]; [|apply step_none].
  cbv beta zeta.
  destruct (Controls.pressed _ "ArrowLeft" || Controls.pressed _ "a");
    destruct (Controls.pressed _ "ArrowRight" || Controls.pressed _ "d"); cbn.
  - apply (step_steer (Game.player g) (- Player.speed (Game.player g))). auto.
  - apply (step_steer (Game.player g) (Player.speed (Game.player g))). auto.
  - apply (step_steer (Game.player g) (- Player.speed (Game.player g))). auto.
  - apply (step_steer (Game.player g) 0). auto.
Qed.

Lemma createNewspaper_player (x y z vx vz : Q) (g : Game.t) :
  Game.player (Game.createNewspaper x y z vx vz g) = Game.player g.
Proof. apply createNewspaper_fields. Qed.

Lemma handleSpecialKeyActions_player (key : string) (h : Heading) (g : Game.t) :
  player_step (Game.player g) (Game.player (Controls.handleSpecialKeyActions key h g)).
Proof.
  unfold Controls.handleSpecialKeyActions.
  destruct (Game.isActive g); cbn [negb]; [|apply step_none].
  destruct ((bool_decide (key = "ArrowUp"%string) || bool_decide (key = "w"%string)) &&
            Player.canJump (Game.player g) && Game.isPlayerOnHill g);
    destruct (bool_decide (key = " "%string) && (_ >? 0)%Z);
    unfold Game.throwNewspaper; rewrite ?createNewspaper_player; cbn;
    solve [apply step_jump | apply step_none].
Qed.

Lemma handle_player_step (e : Event) (g : Game.t) :
  player_step (Game.player g) (Game.player (handle e g)).
Proof.
  destruct e as [dt| |key h|key| |]; cbn [handle].
  - destruct (Game.isActive g) eqn:Hactive.
    + destruct (animate_outcome dt g Hactive)
        as (_ & _ & [(_ & Hpl & _)|(_ & _ & Hpl & _)]); cbv zeta in Hpl; rewrite Hpl.
      * apply step_update.
      * apply step_collision.
    + rewrite (animate_inactive dt g Hactive). apply step_none.
  - apply Controls_update_player.
  - unfold Controls.handleKeyDown. destruct (bool_decide _); [|apply step_none].
    exact (handleSpecialKeyActions_player key h
             (Game.set_keys (<[key:=true]> (Game.keys g)) g)).
  - unfold Controls.handleKeyUp. destruct (bool_decide _); apply step_none.
  - apply step_none.
  - apply step_reset.
Qed.

(** ** Invariants of the player *)

Lemma jumpView_eq (p : Player.t) (y vy ground : Q) (jumping canJump : bool) :
  jumpView p = (y, vy, jumping, canJump, ground) ->
  THREE.y (Player.position p) = y /\ THREE.y (Player.velocity p) = vy /\
  Player.isJumping p = jumping /\ Player.canJump p = canJump /\
  Player.playerHeight p = ground.
Proof. unfold jumpView. intros H. repeat split; congruence. Qed.

Lemma steeringView_updateJump (p : Player.t) :
  steeringView (Player.updateJump p) = steeringView p.
Proof.
  unfold steeringView, Player.updateJump. case_ifs; reflexivity.
Qed.

Lemma steeringView_updateInvincibility (dt : Q) (p : Player.t) :
  steeringView (Player.updateInvincibility dt p) = steeringView p.
Proof.
  unfold steeringView, Player.updateInvincibility. case_ifs; reflexivity.
Qed.

Lemma steeringView_update (dt : Q) (p : Player.t) :
  steeringView (Player.update dt p) =
  (Player.width p, Player.height p, Player.depth p, Player.speed p,
   Player.jumpSpeed p, THREE.x (Player.velocity p), THREE.z (Player.velocity p),
   THREE.z (Player.position p) + THREE.z (Player.velocity p)).
Proof.
  unfold Player.update. cbv zeta.
  rewrite steeringView_updateInvincibility.
  match goal with
  | |- steeringView (Player.set_object_position _ (Player.updateJump ?p0)) = _ =>
      change (steeringView (Player.updateJump p0) =
              (Player.width p, Player.height p, Player.depth p, Player.speed p,
               Player.jumpSpeed p, THREE.x (Player.velocity p),
               THREE.z (Player.velocity p),
               THREE.z (Player.position p) + THREE.z (Player.velocity p)));
      rewrite steeringView_updateJump
  end.
  reflexivity.
Qed.

Lemma update_fields (dt : Q) (p : Player.t) :
  Player.width (Player.update dt p) = Player.width p /\
  Player.height (Player.update dt p) = Player.height p /\
  Player.depth (Player.update dt p) = Player.depth p /\
  Player.speed (Player.update dt p) = Player.speed p /\
  Player.jumpSpeed (Player.update dt p) = Player.jumpSpeed p /\
  THREE.x (Player.velocity (Player.update dt p)) = THREE.x (Player.velocity p) /\
  THREE.z (Player.velocity (Player.update dt p)) = THREE.z (Player.velocity p) /\
  THREE.z (Player.position (Player.update dt p))
    = THREE.z (Player.position p) + THREE.z (Player.velocity p).
Proof.
  pose proof (steeringView_update dt p) as H. unfold steeringView in H.
  repeat split; congruence.
Qed.

Lemma update_jump_consistent (dt : Q) (p : Player.t) :
  jump_consistent p ->
  jump_consistent (Player.update dt p) /\
  Player.playerHeight (Player.update dt p) = Player.playerHeight p.
Proof.
  intros (Hcan & Hground & Hheight).
  pose proof (jumpView_update dt p) as Hview.
  unfold jumpStep in Hview. unfold jumpView at 2 in Hview.
  destruct (Player.isJumping p) eqn:Hjumping.
  - destruct (Number.leb _ _) eqn:Hland;
      apply jumpView_eq in Hview as (Hy & Hvy & Hj & Hc & Hh);
      unfold jump_consistent; rewrite Hy, Hvy, Hj, Hc, Hh.
    + split; [|reflexivity]. split; [reflexivity|]. split; [auto|lra].
    + apply Number_leb_gt in Hland.
      split; [|reflexivity]. split; [exact Hcan|]. split; [discriminate|lra].
  - apply jumpView_eq in Hview as (Hy & Hvy & Hj & Hc & Hh).
    unfold jump_consistent. rewrite Hy, Hvy, Hj, Hc, Hh, Hjumping.
    split; [|reflexivity]. split; [exact Hcan|]. split; [exact Hground|exact Hheight].
Qed.

Lemma player_step_invariant (p p' : Player.t) :
  player_step p p' -> player_invariant p -> player_invariant p'.
Proof.
  intros Hstep (Hconst & Hjump & Hsteer & Hz).
  pose proof Hconst as (Hw & Hh & Hd & Hs & Hjs & Hph).
  pose proof Hjump as (Hcan & Hground & Hheight).
  pose proof Hsteer as (Hvz & Hvx).
  destruct Hstep as [|dt| | | |a Ha].
  - exact (conj Hconst (conj Hjump (conj Hsteer Hz))).
  - destruct (update_fields dt p) as (Hw' & Hh' & Hd' & Hs' & Hjs' & Hvx' & Hvz' & Hz').
    destruct (update_jump_consistent dt p Hjump) as (Hjump' & Hph').
    split; [|split; [exact Hjump'|split]].
    + unfold Player_constants. rewrite Hw', Hh', Hd', Hs', Hjs', Hph'. exact Hconst.
    + unfold steered. rewrite Hvx', Hvz', Hs'. exact Hsteer.
    + rewrite Hz'. destruct Hvz as [-> | ->]; [lra|]. rewrite Hs. lra.
  - exact (conj Hconst (conj Hjump (conj Hsteer Hz))).
  - unfold Player.startJump. destruct (Player.isJumping p) eqn:Hjumping; cbn [negb].
    + exact (conj Hconst (conj Hjump (conj Hsteer Hz))).
    + split; [exact Hconst|]. split; [|split; [exact Hsteer|exact Hz]].
      unfold jump_consistent. cbn.
      split; [reflexivity|]. split; [discriminate|exact Hheight].
  - split; [exact Hconst|]. split; [|split].
    + unfold jump_consistent. cbn. split; [reflexivity|]. split; [auto|lra].
    + unfold steered. cbn. auto.
    + cbn. lra.
  - split; [exact Hconst|]. split; [exact Hjump|]. split; [|exact Hz].
    unfold steered. cbn. auto.
Qed.

Lemma Reachable_player_invariant (g : Game.t) :
  Reachable g -> player_invariant (Game.player g).
Proof.
  induction 1 as [g (ws & os & ms & ps & page & -> & _)|e g _ IH _].
  - split; [repeat split|]. split; [|split].
    + unfold jump_consistent. cbn. split; [reflexivity|]. split; [auto|lra].
    + unfold steered. cbn. auto.
    + cbn. lra.
  - exact (player_step_invariant _ _ (handle_player_step e g) IH).
Qed.

(** X7.  In every state the game reaches the jump flags agree with the
    height of the player: [canJump] is the negation of [isJumping]; the
    player is never below height 1; when it is not jumping it stands
    exactly at height 1 with no vertical velocity, ready for a jump of
    speed 0.2. *)
Theorem jump_state_is_consistent (g : Game.t) :
  Reachable g ->
  Player.canJump (Game.player g) = negb (Player.isJumping (Game.player g)) /\
  1 <= THREE.y (Player.position (Game.player g)) /\
  (Player.isJumping (Game.player g) = false ->
     standing (Game.player g) /\ THREE.y (Player.velocity (Game.player g)) = 0).
Proof.
  intros Hreach.
  destruct (Reachable_player_invariant g Hreach)
    as ((_ & _ & _ & _ & Hjs & Hph) & (Hcan & Hground & Hheight) & _).
  rewrite Hph in *. split; [exact Hcan|]. split; [exact Hheight|].
  intros Hj. destruct (Hground Hj) as [Hy Hvy].
  split; [|exact Hvy]. unfold standing. auto.
Qed.

Lemma jump_state_is_consistent_witness :
  Reachable last_life /\
  Player.canJump (Game.player last_life)
    = negb (Player.isJumping (Game.player last_life)) /\
  1 <= THREE.y (Player.position (Game.player last_life)).
Proof.
  split; [exact last_life_reachable|].
  destruct (jump_state_is_consistent last_life last_life_reachable) as (Hc & Hy & _).
  split; [exact Hc|exact Hy].
Defined.

(** ** How far a callback moves the player *)

Lemma handle_position (e : Event) (g : Game.t) :
  e <> ClickRestart ->
  Player.position (Game.player (handle e g)) = Player.position (Game.player g) \/
  exists dt, Game.player (handle e g) = Player.update dt (Game.player g).
Proof.
  intros Hne. destruct e as [dt| |key h|key| |]; cbn [handle].
  - destruct (Game.isActive g) eqn:Hactive.
    + destruct (animate_outcome dt g Hactive)
        as (_ & _ & [(_ & Hpl & _)|(_ & _ & Hpl & _)]); cbv zeta in Hpl; rewrite Hpl.
      * right. now exists dt.
      * left. reflexivity.
    + rewrite (animate_inactive dt g Hactive). now left.
  - left. apply Controls_update_fields.
  - left. apply handleKeyDown_fields.
  - left. unfold Controls.handleKeyUp. destruct (bool_decide _); reflexivity.
  - left. reflexivity.
  - contradiction.
Qed.

(** X8.  In every reachable state the forward velocity of the player is
    0 or 0.1 and its lateral velocity is 0, 0.1 or -0.1; so no callback
    other than a restart moves the player backward, or forward by more
    than 0.1, or sideways by more than 0.1. *)
Theorem player_moves_forward_slowly (g : Game.t) (e : Event) :
  Reachable g ->
  e <> ClickRestart ->
  let p := Game.player g in
  let p' := Game.player (handle e g) in
  (THREE.z (Player.velocity p) = 0 \/ THREE.z (Player.velocity p) = 0.10) /\
  (THREE.x (Player.velocity p) = 0 \/ THREE.x (Player.velocity p) = 0.10 \/
   THREE.x (Player.velocity p) = - 0.10) /\
  THREE.z (Player.position p) <= THREE.z (Player.position p') /\
  THREE.z (Player.position p') <= THREE.z (Player.position p) + 0.1 /\
  Qabs (THREE.x (Player.position p') - THREE.x (Player.position p)) <= 0.1.
Proof.
  intros Hreach Hne p p'. subst p p'.
  destruct (Reachable_player_invariant g Hreach)
    as ((_ & _ & _ & Hs & _) & _ & (Hvz & Hvx) & _).
  destruct (Reachable_invariant g Hreach) as (_ & _ & _ & [Hlow Hhigh] & _).
  rewrite Hs in Hvz, Hvx. split; [exact Hvz|]. split; [exact Hvx|].
  destruct (handle_position e g Hne) as [-> | [dt ->]].
  - split; [lra|]. split; [lra|].
    apply Qabs_Qle_condition. lra.
  - destruct (update_fields dt (Game.player g)) as (_ & _ & _ & _ & _ & _ & _ & ->).
    rewrite Player_update_x.
    set (x := THREE.x (Player.position (Game.player g))) in *.
    set (vx := THREE.x (Player.velocity (Game.player g))) in *.
    set (vz := THREE.z (Player.velocity (Game.player g))) in *.
    assert (Hvzb : 0 <= vz /\ vz <= 0.1) by (destruct Hvz as [-> | ->]; lra).
    assert (Hvxb : -0.1 <= vx /\ vx <= 0.1)
      by (destruct Hvx as [-> | [-> | ->]]; lra).
    split; [lra|]. split; [lra|].
    apply Qabs_Qle_condition.
    destruct (Math_min_spec 15 (x + vx)) as (Hm1 & Hm2 & [Hm | Hm]);
      destruct (Math_max_spec (-15) (Math.min 15 (x + vx))) as (HM1 & HM2 & [HM | HM]);
      rewrite HM in *; try rewrite Hm in *; lra.
Qed.

Lemma player_moves_forward_slowly_witness :
  Reachable last_life /\ Frame 1 <> ClickRestart /\
  THREE.z (Player.position (Game.player last_life))
    <= THREE.z (Player.position (Game.player (handle (Frame 1) last_life))).
Proof.
  assert (Hne : Frame 1 <> ClickRestart) by discriminate.
  split; [exact last_life_reachable|]. split; [exact Hne|].
  exact (proj1 (proj2 (proj2
    (player_moves_forward_slowly last_life (Frame 1) last_life_reachable Hne)))).
Defined.

(** ** Counters, readouts and the key table *)

Lemma updateNewspaper_outcomes (g : Game.t) (n : Newspaper.t) :
  (Game.updateNewspaper g n).1 = g \/
  exists restY points n1, (Game.updateNewspaper g n).1 = (Game.deliver restY points g n1).1.
Proof.
  unfold Game.updateNewspaper.
  destruct (Newspaper.thrown n && negb (Newspaper.delivered n)); [|now left].
  destruct (updateAirborne_cases g n) as [[_ ->]|[(_ & _ & ->)|(_ & _ & ->)]];
    cbn [fst]; [right|right|now left]; eauto.
Qed.

(** A property of the game that a delivery and a change of the array
    keep is kept by [updateNewspapers]. *)
Lemma updateNewspapers_preserves (P : Game.t -> Prop) :
  (forall g l, P g -> P (Game.set_newspapers l g)) ->
  (forall g restY points n, P g -> P (Game.deliver restY points g n).1) ->
  forall g, P g -> P (Game.updateNewspapers g).
Proof.
  intros Hset Hdeliver.
  assert (Hat : forall i g, P g -> P (Game.updateNewspaperAt i g)).
  { intros i g Hg. unfold Game.updateNewspaperAt.
    destruct (Game.newspapers g !! i) as [n|]; [|exact Hg].
    assert (H1 : P (Game.updateNewspaper g n).1).
    { destruct (updateNewspaper_outcomes g n) as [-> | (y & pts & n1 & ->)]; auto. }
    destruct (Game.updateNewspaper g n) as [g1 n1]. cbn [fst] in H1.
    destruct (Game.expired _ n1); auto. }
  assert (Hfrom : forall k g, P g -> P (Game.updateNewspapersFrom k g)).
  { induction k as [|k IH]; intros g Hg; cbn [Game.updateNewspapersFrom]; auto. }
  intros g Hg. unfold Game.updateNewspapers.
  destruct (length (Game.newspapers g) =? 0)%nat; auto.
Qed.

Lemma updateNewspapers_synced (g : Game.t) :
  synced g -> synced (Game.updateNewspapers g).
Proof.
  apply updateNewspapers_preserves.
  - intros g0 l H. exact H.
  - intros g0 restY points n _. repeat split.
Qed.

Lemma collide_synced (g : Game.t) : synced (Game.collide g).
Proof. unfold Game.collide. cbn. case_ifs; repeat split. Qed.

Lemma animate_synced (dt : Q) (g : Game.t) :
  synced g -> synced (Game.animate dt g).
Proof.
  intros Hsynced. destruct (Game.isActive g) eqn:Hactive.
  - destruct (animate_active dt g Hactive) as (g1 & Hcases & ->). cbv zeta.
    assert (H1 : synced g1).
    { destruct Hcases as [[_ ->]|(_ & _ & ->)]; [exact Hsynced|apply collide_synced]. }
    apply updateNewspapers_synced in H1.
    set (g2 := Game.updateNewspapers g1) in *. clearbody g2.
    match goal with |- context [if ?c then Game.endGame g2 else g2] =>
      destruct (finish_fields c g2) as (Hp & Hl & _);
      destruct (finish_more c g2) as (Hs & _ & _ & Hse & Hpe & Hle)
    end.
    unfold synced. rewrite Hp, Hl, Hs, Hse, Hpe, Hle. exact H1.
  - rewrite (animate_inactive dt g Hactive). exact Hsynced.
Qed.

Lemma createNewspaper_more (x y z vx vz : Q) (g : Game.t) :
  let g' := Game.createNewspaper x y z vx vz g in
  Game.score g' = Game.score g /\ Game.keys g' = Game.keys g /\
  Game.gameTime g' = Game.gameTime g /\ Game.walls g' = Game.walls g /\
  (synced g -> synced g').
Proof.
  unfold Game.createNewspaper.
  destruct (Game.papers g <=? 0)%Z; cbn;
    (split; [reflexivity|]; split; [reflexivity|]; split; [reflexivity|];
     split; [reflexivity|]).
  - auto.
  - intros _. repeat split.
Qed.

Lemma handleSpecialKeyActions_more (key : string) (h : Heading) (g : Game.t) :
  let g' := Controls.handleSpecialKeyActions key h g in
  (Game.score g' = Game.score g \/ Game.score g' = (Game.score g + 20)%Z) /\
  Game.keys g' = Game.keys g /\
  Game.gameTime g' = Game.gameTime g /\
  (synced g -> synced g').
Proof.
  unfold Controls.handleSpecialKeyActions.
  destruct (Game.isActive g); cbn [negb];
    [|split; [now left|]; split; [reflexivity|]; split; [reflexivity|auto]].
  set (g1 := if _ : bool then _ else g).
  assert (H1 : (Game.score g1 = Game.score g \/ Game.score g1 = (Game.score g + 20)%Z) /\
               Game.keys g1 = Game.keys g /\ Game.gameTime g1 = Game.gameTime g /\
               (synced g -> synced g1)).
  { subst g1. destruct (_ && _ && _); cbn.
    - split; [now right|]. split; [reflexivity|]. split; [reflexivity|].
      intros _. repeat split.
    - split; [now left|]. split; [reflexivity|]. split; [reflexivity|auto]. }
  clearbody g1. destruct H1 as (Hs & Hk & Ht & Hsy).
  destruct (bool_decide (key = " "%string) && (Game.papers g1 >? 0)%Z).
  - unfold Game.throwNewspaper.
    match goal with |- context [Game.createNewspaper ?a ?b ?c ?d ?e g1] =>
      destruct (createNewspaper_more a b c d e g1) as (Hs' & Hk' & Ht' & _ & Hsy')
    end.
    cbv zeta in Hs', Hk', Ht', Hsy'. rewrite Hs', Hk', Ht'.
    split; [exact Hs|]. split; [exact Hk|]. split; [exact Ht|auto].
  - split; [exact Hs|]. split; [exact Hk|]. split; [exact Ht|exact Hsy].
Qed.

Lemma Controls_update_more (g : Game.t) :
  Game.score (Controls.update g) = Game.score g /\
  Game.keys (Controls.update g) = Game.keys g /\
  Game.gameTime (Controls.update g) = Game.gameTime g.
Proof.
  unfold Controls.update. destruct (Game.isActive g); cbn [negb]; [|repeat split].
  cbv beta zeta. case_ifs; cbn; repeat split.
Qed.

Lemma handle_synced (e : Event) (g : Game.t) :
  (UI.startScreen (Game.ui g) = none -> synced g) ->
  UI.startScreen (Game.ui (handle e g)) = none -> synced (handle e g).
Proof.
  intros Hsynced Hstarted. destruct e as [dt| |key h|key| |]; cbn [handle] in *.
  - apply animate_synced, Hsynced.
    destruct (animate_fields dt g) as (_ & _ & _ & <- & _). exact Hstarted.
  - destruct (Controls_update_fields g) as (Hp & _ & Hl & _ & Hui & _).
    destruct (Controls_update_more g) as (Hs & _).
    unfold synced. rewrite Hp, Hl, Hs, Hui. apply Hsynced. now rewrite <- Hui.
  - unfold Controls.handleKeyDown in *. destruct (bool_decide _); [|auto].
    apply (handleSpecialKeyActions_more key h
             (Game.set_keys (<[key:=true]> (Game.keys g)) g)).
    apply Hsynced.
    destruct (handleSpecialKeyActions_fields key h
                (Game.set_keys (<[key:=true]> (Game.keys g)) g))
      as (_ & _ & _ & _ & _ & _ & Hstart).
    cbv zeta in Hstart. rewrite Hstart in Hstarted. exact Hstarted.
  - unfold Controls.handleKeyUp in *. destruct (bool_decide _); auto.
  - repeat split.
  - repeat split.
Qed.

Lemma Reachable_synced (g : Game.t) :
  Reachable g -> UI.startScreen (Game.ui g) = none -> synced g.
Proof.
  induction 1 as [g (ws & os & ms & ps & page & -> & Hstart & _)|e g _ IH _].
  - cbn. congruence.
  - now apply handle_synced.
Qed.

(** X9.  Once the game is started, the three readouts of the overlay
    show the score, the paper count and the lives of the game in every
    state it reaches: no callback changes a counter without writing the
    readouts. *)
Theorem readouts_show_counters (g : Game.t) :
  Reachable g ->
  UI.startScreen (Game.ui g) = none ->
  UI.scoreElement (Game.ui g) = Game.score g /\
  UI.papersElement (Game.ui g) = Game.papers g /\
  UI.livesElement (Game.ui g) = Game.lives g.
Proof. apply Reachable_synced. Qed.

Lemma readouts_show_counters_witness :
  Reachable last_life /\
  UI.startScreen (Game.ui last_life) = none /\
  UI.livesElement (Game.ui last_life) = 1%Z.
Proof.
  assert (Hstarted : UI.startScreen (Game.ui last_life) = none)
    by (vm_compute; reflexivity).
  split; [exact last_life_reachable|]. split; [exact Hstarted|].
  destruct (readouts_show_counters last_life last_life_reachable Hstarted) as (_ & _ & ->).
  vm_compute. reflexivity.
Defined.

Lemma handle_counters (e : Event) (g : Game.t) :
  invariant g -> counters_bounded g -> counters_bounded (handle e g).
Proof.
  intros (_ & _ & Hlives & _) [Hl Hs]. unfold counters_bounded.
  destruct e as [dt| |key h|key| |]; cbn [handle].
  - destruct (Game.isActive g) eqn:Hactive.
    + specialize (Hlives eq_refl).
      destruct (animate_outcome dt g Hactive)
        as (_ & _ & [(_ & _ & Hl' & Hs')|(_ & _ & _ & Hl' & Hs')]);
        cbv zeta in Hl', Hs'; rewrite Hl'; lia.
    + rewrite (animate_inactive dt g Hactive). cbn. lia.
  - destruct (Controls_update_fields g) as (_ & _ & -> & _).
    destruct (Controls_update_more g) as (-> & _). lia.
  - unfold Controls.handleKeyDown. destruct (bool_decide _); [|lia].
    destruct (handleSpecialKeyActions_fields key h
                (Game.set_keys (<[key:=true]> (Game.keys g)) g))
      as (_ & _ & _ & _ & Hl' & _).
    destruct (handleSpecialKeyActions_more key h
                (Game.set_keys (<[key:=true]> (Game.keys g)) g)) as (Hs' & _).
    cbv zeta in Hl', Hs'. cbn in Hl', Hs'. rewrite Hl'.
    destruct Hs' as [-> | ->]; lia.
  - unfold Controls.handleKeyUp. destruct (bool_decide _); cbn; lia.
  - cbn. lia.
  - cbn. lia.
Qed.

Lemma Reachable_counters (g : Game.t) : Reachable g -> counters_bounded g.
Proof.
  induction 1 as [g (ws & os & ms & ps & page & -> & _)|e g Hreach IH _].
  - unfold counters_bounded. cbn. lia.
  - apply handle_counters; [now apply Reachable_invariant|exact IH].
Qed.

(** X10.  In every reachable state the lives lie between 0 and 3 and
    the score is at least -5 for every life lost, so never below -15;
    the game is inactive when no life is left. *)
Theorem lives_and_score_bounds (g : Game.t) :
  Reachable g ->
  (0 <= Game.lives g <= 3)%Z /\
  (-5 * (3 - Game.lives g) <= Game.score g)%Z /\
  (-15 <= Game.score g)%Z /\
  (Game.lives g = 0%Z -> Game.isActive g = false).
Proof.
  intros Hreach. destruct (Reachable_counters g Hreach) as [Hl Hs].
  destruct (Reachable_invariant g Hreach) as (_ & _ & Hlives & _).
  split; [exact Hl|]. split; [exact Hs|]. split; [lia|].
  intros Hzero. destruct (Game.isActive g); [|reflexivity].
  specialize (Hlives eq_refl). lia.
Qed.

Lemma lives_and_score_bounds_witness :
  Reachable last_life /\ (0 <= Game.lives last_life <= 3)%Z /\
  (-15 <= Game.score last_life)%Z.
Proof.
  split; [exact last_life_reachable|].
  destruct (lives_and_score_bounds last_life last_life_reachable) as (Hl & _ & Hs & _).
  split; [exact Hl|exact Hs].
Defined.

Lemma handleSpecialKeyActions_keys (key : string) (h : Heading) (g : Game.t) :
  Game.keys (Controls.handleSpecialKeyActions key h g) = Game.keys g.
Proof. apply handleSpecialKeyActions_more. Qed.

Lemma handle_keys_dom (e : Event) (g : Game.t) :
  dom (Game.keys (handle e g)) = dom (Game.keys g).
Proof.
  destruct e as [dt| |key h|key| |]; cbn [handle].
  - destruct (Game.isActive g) eqn:Hactive.
    + destruct (animate_outcome dt g Hactive) as (Hk & _). cbv zeta in Hk. now rewrite Hk.
    + now rewrite (animate_inactive dt g Hactive).
  - destruct (Controls_update_more g) as (_ & -> & _). reflexivity.
  - unfold Controls.handleKeyDown.
    destruct (bool_decide (is_Some (Game.keys g !! key))) eqn:Hknown; [|reflexivity].
    rewrite handleSpecialKeyActions_keys. cbn.
    apply bool_decide_eq_true in Hknown. apply elem_of_dom in Hknown.
    rewrite dom_insert_L. set_solver.
  - unfold Controls.handleKeyUp.
    destruct (bool_decide (is_Some (Game.keys g !! key))) eqn:Hknown; [|reflexivity].
    cbn. apply bool_decide_eq_true in Hknown. apply elem_of_dom in Hknown.
    rewrite dom_insert_L. set_solver.
  - reflexivity.
  - reflexivity.
Qed.

Lemma Reachable_keys_dom (g : Game.t) :
  Reachable g -> dom (Game.keys g) = dom Game.initial_keys.
Proof.
  induction 1 as [g (ws & os & ms & ps & page & -> & _)|e g _ IH _].
  - reflexivity.
  - now rewrite handle_keys_dom.
Qed.

(** X11.  The key table keeps the nine keys it starts with.  A key that
    is not one of them changes nothing at all, pressed or released; a
    key that is one of them reads as pressed after its keydown and as
    released after its keyup. *)
Theorem key_table_is_fixed (g : Game.t) (key : string) (h : Heading) :
  Reachable g ->
  dom (Game.keys g) = dom Game.initial_keys /\
  (key ∉ dom Game.initial_keys ->
     handle (KeyDown key h) g = g /\ handle (KeyUp key) g = g) /\
  (key ∈ dom Game.initial_keys ->
     Controls.pressed (handle (KeyDown key h) g) key = true /\
     Controls.pressed (handle (KeyUp key) g) key = false).
Proof.
  intros Hreach. pose proof (Reachable_keys_dom g Hreach) as Hdom.
  split; [exact Hdom|]. rewrite <- Hdom. cbn [handle].
  unfold Controls.handleKeyDown, Controls.handleKeyUp, Controls.pressed.
  split; intros Hkey.
  - rewrite bool_decide_eq_false_2; [split; reflexivity|].
    intros Hsome. apply Hkey. now apply elem_of_dom.
  - apply elem_of_dom in Hkey. rewrite bool_decide_eq_true_2 by exact Hkey.
    rewrite handleSpecialKeyActions_keys. cbn.
    rewrite !lookup_insert_eq. split; reflexivity.
Qed.

Lemma key_table_is_fixed_witness :
  Reachable last_life /\
  dom (Game.keys last_life) = dom Game.initial_keys /\
  handle (KeyDown "x" straight_ahead) last_life = last_life.
Proof.
  assert (Hunknown : "x"%string ∉ dom Game.initial_keys).
  { vm_compute. intros H. discriminate H. }
  split; [exact last_life_reachable|].
  split.
  - exact (proj1 (key_table_is_fixed last_life "x" straight_ahead last_life_reachable)).
  - exact (proj1 (proj1 (proj2 (key_table_is_fixed last_life "x" straight_ahead
                                  last_life_reachable)) Hunknown)).
Defined.

(** X12.  While the game is not active, a frame, a tick of the keyboard
    mapper, a keydown and a keyup change nothing of the simulation:
    only the key table and the last delta time are written. *)
Theorem inactive_game_is_frozen (e : Event) (g : Game.t) :
  Game.isActive g = false ->
  e <> ClickStart -> e <> ClickRestart ->
  same_simulation g (handle e g).
Proof.
  intros Hactive Hstart Hrestart. unfold same_simulation.
  destruct e as [dt| |key h|key| |]; cbn [handle]; try contradiction.
  - rewrite (animate_inactive dt g Hactive). exists (Game.keys g), dt. now destruct g.
  - unfold Controls.update. rewrite Hactive. cbn.
    exists (Game.keys g), (Game.deltaTime g). now destruct g.
  - unfold Controls.handleKeyDown, Controls.handleSpecialKeyActions.
    destruct (bool_decide _).
    + cbn. rewrite Hactive. cbn.
      exists (<[key:=true]> (Game.keys g)), (Game.deltaTime g). now destruct g.
    + exists (Game.keys g), (Game.deltaTime g). now destruct g.
  - unfold Controls.handleKeyUp. destruct (bool_decide _).
    + exists (<[key:=false]> (Game.keys g)), (Game.deltaTime g). now destruct g.
    + exists (Game.keys g), (Game.deltaTime g). now destruct g.
Qed.

Lemma inactive_game_is_frozen_witness :
  Game.isActive empty_street = false /\
  same_simulation empty_street (handle (KeyDown " " straight_ahead) empty_street).
Proof.
  split; [reflexivity|].
  apply inactive_game_is_frozen; [reflexivity|discriminate|discriminate].
Defined.

(** ** [updateNewspapers]: what stays and what goes *)

(** X13.  [updateNewspapers] visits every newspaper of the array exactly
    once, although it removes elements while it iterates: the array it
    leaves is the array of the updated newspapers, in the same order,
    without those that lie undelivered on the ground after the 30th
    second. *)
Theorem updateNewspapers_maps_then_filters (g : Game.t) :
  Game.newspapers (Game.updateNewspapers g) =
  filter (fun n' => Game.expired g n' = false)
         (map (updated g) (Game.newspapers g)).
Proof. apply updateNewspapers_spec. Qed.

(** X14.  [updateNewspapers] adds to the score the points of every
    newspaper of the array, each counted once: the score never goes
    down in it and goes up by at most 20 per newspaper. *)
Theorem updateNewspapers_adds_the_awards (g : Game.t) :
  Game.score (Game.updateNewspapers g) =
    (Game.score g + total (map (awarded g) (Game.newspapers g)))%Z /\
  (Game.score g <= Game.score (Game.updateNewspapers g)
     <= Game.score g + 20 * Z.of_nat (length (Game.newspapers g)))%Z.
Proof.
  destruct (updateNewspapers_spec g) as [_ Hscore]. split; [exact Hscore|].
  rewrite Hscore. pose proof (total_awarded_bounds g (Game.newspapers g)). lia.
Qed.

Lemma elem_of_map {A B : Type} (f : A -> B) (l : list A) (x : A) :
  x ∈ l -> f x ∈ map f l.
Proof. rewrite !list_elem_of_In. apply in_map. Qed.

Lemma elem_of_map_inv {A B : Type} (f : A -> B) (l : list A) (y : B) :
  y ∈ map f l -> exists x, y = f x /\ x ∈ l.
Proof.
  rewrite list_elem_of_In, in_map_iff. intros (x & <- & Hin).
  exists x. split; [reflexivity|]. now apply list_elem_of_In.
Qed.

Lemma updateNewspapers_keeps_delivered (g : Game.t) (n : Newspaper.t) :
  n ∈ Game.newspapers g -> Newspaper.delivered n = true ->
  n ∈ Game.newspapers (Game.updateNewspapers g).
Proof.
  intros Hin Hdelivered. destruct (updateNewspapers_spec g) as [-> _].
  apply list_elem_of_filter. split; [now apply expired_delivered|].
  replace n with (updated g n) at 1; [now apply elem_of_map|].
  unfold updated. now rewrite updateNewspaper_delivered.
Qed.

Lemma animate_newspapers (dt : Q) (g : Game.t) :
  Game.isActive g = true ->
  exists g1, Game.newspapers g1 = Game.newspapers g /\
             Game.gameTime g1 = Game.gameTime g + dt /\
             Game.newspapers (Game.animate dt g) = Game.newspapers (Game.updateNewspapers g1).
Proof.
  intros Hactive. destruct (animate_active dt g Hactive) as (g1 & Hcases & ->).
  cbv zeta. exists g1.
  match goal with |- context [if ?c then Game.endGame ?g2 else ?g2] =>
    destruct (finish_fields c g2) as (_ & _ & -> & _)
  end.
  destruct Hcases as [[_ ->]|(_ & _ & ->)].
  - cbn. repeat split.
  - destruct (collide_fields
                (Game.set_gameTime (Game.gameTime g + dt) (Game.set_deltaTime dt g)))
      as (_ & -> & _).
    split; [reflexivity|]. split; [|reflexivity].
    unfold Game.collide. cbn. case_ifs; reflexivity.
Qed.

(** X15.  A delivered newspaper is never taken off the array: every
    callback but a restart keeps it.  So once a newspaper is delivered
    the array is never empty again, and a frame without a collision
    cannot end the game, whatever the paper count. *)
Theorem delivered_newspapers_stay (g : Game.t) (n : Newspaper.t) (e : Event) (dt : Q) :
  n ∈ Game.newspapers g ->
  Newspaper.delivered n = true ->
  (e <> ClickRestart -> n ∈ Game.newspapers (handle e g)) /\
  (Game.isActive g = true -> (Game.checkObstacleCollisions g).2 = false ->
   Game.isActive (Game.animate dt g) = true).
Proof.
  intros Hin Hdelivered.
  assert (Hframe : forall dt', n ∈ Game.newspapers (Game.animate dt' g)).
  { intros dt'. destruct (Game.isActive g) eqn:Hactive.
    - destruct (animate_newspapers dt' g Hactive) as (g1 & Hsame & _ & ->).
      apply updateNewspapers_keeps_delivered; [now rewrite Hsame|exact Hdelivered].
    - now rewrite (animate_inactive dt' g Hactive). }
  split.
  - intros Hne. destruct e as [dt'| |key h|key| |]; cbn [handle].
    + apply Hframe.
    + destruct (Controls_update_fields g) as (_ & -> & _). exact Hin.
    + destruct (handleKeyDown_fields key h g) as (_ & [[_ ->]|(_ & _ & n' & ->)] & _).
      * exact Hin.
      * apply elem_of_app. now left.
    + unfold Controls.handleKeyUp. destruct (bool_decide _); exact Hin.
    + exact Hin.
    + contradiction.
  - intros Hactive Hnohit. specialize (Hframe dt).
    destruct (animate_active dt g Hactive) as (g1 & Hcases & Heq).
    rewrite Heq in *. cbv zeta in *.
    destruct Hcases as [[_ Hg1]|(Hhit & _)]; [|congruence].
    pose proof (newspapers_pass_fields _ _ (updateNewspapers_pass g1))
      as (_ & _ & _ & _ & Hact & _).
    set (g2 := Game.updateNewspapers g1) in *.
    destruct ((Game.papers g2 <=? 0)%Z && (length (Game.newspapers g2) =? 0)%nat &&
              (Game.lives g2 >? 0)%Z) eqn:Hend.
    + apply andb_true_iff in Hend as [Hend _]. apply andb_true_iff in Hend as [_ Hlen].
      apply Nat.eqb_eq, nil_length_inv in Hlen. cbn in Hframe. rewrite Hlen in Hframe.
      inversion Hframe.
    + rewrite Hact, Hg1. exact Hactive.
Qed.

Lemma filter_all {A : Type} (P : A -> Prop) `{forall x, Decision (P x)} (l : list A) :
  (forall x, x ∈ l -> P x) -> filter P l = l.
Proof.
  induction l as [|a l IH]; intros Hall; [reflexivity|].
  rewrite filter_cons_True by (apply Hall; now left).
  f_equal. apply IH. intros x Hx. apply Hall. now right.
Qed.

(** X16.  Up to the 30th second of the game [updateNewspapers] removes
    nothing: the array keeps its length.  After it, no newspaper is
    left lying undelivered on the ground when [updateNewspapers]
    returns. *)
Theorem littered_newspapers_go_after_30_seconds (g : Game.t) :
  (Game.gameTime g <= 30 ->
   length (Game.newspapers (Game.updateNewspapers g)) = length (Game.newspapers g)) /\
  (30 < Game.gameTime g ->
   forall n', n' ∈ Game.newspapers (Game.updateNewspapers g) -> ~ littered n').
Proof.
  destruct (updateNewspapers_spec g) as [-> _]. split.
  - intros Htime. rewrite filter_all; [now rewrite length_map|].
    intros n' _. unfold Game.expired.
    replace (Number.gtb (Game.gameTime g) 30) with false; [now rewrite andb_false_r|].
    symmetry. unfold Number.gtb. now apply Number_ltb_ge.
  - intros Htime n' Hin [Hthrown Hdelivered].
    apply list_elem_of_filter in Hin as [Hkept _].
    unfold Game.expired in Hkept. rewrite Hthrown, Hdelivered in Hkept. cbn in Hkept.
    apply Number_gtb_gt in Htime. congruence.
Qed.

Lemma delivered_newspapers_stay_witness :
  delivered_paper ∈ Game.newspapers porch_delivery /\
  Newspaper.delivered delivered_paper = true /\
  delivered_paper ∈ Game.newspapers (handle (Frame 0.016) porch_delivery).
Proof.
  assert (Hin : delivered_paper ∈ Game.newspapers porch_delivery).
  { replace (Game.newspapers porch_delivery) with [delivered_paper]
      by (vm_compute; reflexivity).
    now left. }
  assert (Hdelivered : Newspaper.delivered delivered_paper = true)
    by (vm_compute; reflexivity).
  split; [exact Hin|]. split; [exact Hdelivered|].
  apply (proj1 (delivered_newspapers_stay porch_delivery delivered_paper
                  (Frame 0.016) 0.016 Hin Hdelivered)).
  discriminate.
Defined.

(** ** The flight of a newspaper ends *)

Lemma updatedOver_cons (g : Game.t) (gs : list Game.t) (n : Newspaper.t) :
  updatedOver (g :: gs) n = updatedOver gs (updated g n).
Proof. exact (fold_left_cons (fun n g => updated g n) g gs n). Qed.

Lemma updated_grounded (g : Game.t) (n : Newspaper.t) :
  Newspaper.thrown n = false -> updated g n = n.
Proof.
  intros Hthrown. unfold updated, Game.updateNewspaper. now rewrite Hthrown.
Qed.

Lemma updatedOver_grounded (gs : list Game.t) (n : Newspaper.t) :
  Newspaper.thrown n = false -> Newspaper.thrown (updatedOver gs n) = false.
Proof.
  intros Hthrown. induction gs as [|g gs IH]; [exact Hthrown|].
  now rewrite updatedOver_cons, updated_grounded.
Qed.

Lemma scanWalls_cases (ws : list Box3) (prevPos : Vector3) (n : Newspaper.t) :
  Game.scanWalls ws prevPos n = n \/
  Newspaper.thrown (Game.scanWalls ws prevPos n) = false.
Proof.
  induction ws as [|w ws IH]; simpl; [now left|].
  destruct (THREE.containsPoint w (Newspaper.position n)); [now right|exact IH].
Qed.

Lemma groundCollision_cases (n : Newspaper.t) :
  Newspaper.thrown (Game.groundCollision n) = false \/
  Game.groundCollision n = n /\ 0.05 < THREE.y (Newspaper.position n).
Proof.
  unfold Game.groundCollision.
  destruct (Number.leb _ _) eqn:Hground; [now left|].
  right. split; [reflexivity|]. now apply Number_leb_gt.
Qed.

Lemma groundCollision_thrown (n : Newspaper.t) :
  Newspaper.thrown n = false -> Newspaper.thrown (Game.groundCollision n) = false.
Proof.
  intros Hthrown. unfold Game.groundCollision. destruct (Number.leb _ _); auto.
Qed.

(** One pass on a newspaper in flight: it comes to rest, or it glides
    and is still above the ground. *)
Lemma updated_airborne (g : Game.t) (n : Newspaper.t) :
  airborne n ->
  Newspaper.thrown (updated g n) = false \/
  updated g n = glide n /\ 0.05 < THREE.y (Newspaper.position (glide n)).
Proof.
  intros Hair. unfold updated. rewrite (updateNewspaper_airborne g n Hair).
  destruct (updateAirborne_cases g n) as [[_ ->]|[(_ & _ & ->)|(_ & _ & ->)]];
    cbn [snd]; [now left|now left|].
  unfold Game.moved.
  destruct (scanWalls_cases (Game.walls g) (Newspaper.position n) (Game.fall n))
    as [-> | Hwall].
  - destruct (groundCollision_cases (Game.fall n)) as [Hground|[-> Hy]].
    + left. exact Hground.
    + right. split; [reflexivity|exact Hy].
  - left. cbn. now apply groundCollision_thrown.
Qed.

Lemma glide_fields (n : Newspaper.t) :
  Newspaper.thrown (glide n) = Newspaper.thrown n /\
  Newspaper.delivered (glide n) = Newspaper.delivered n /\
  THREE.y (Newspaper.velocity (glide n)) = THREE.y (Newspaper.velocity n) - 0.015 /\
  THREE.y (Newspaper.position (glide n))
    = THREE.y (Newspaper.position n) + (THREE.y (Newspaper.velocity n) - 0.015).
Proof. repeat split. Qed.

Lemma of_nat_succ (m : nat) :
  inject_Z (Z.of_nat (S m)) == inject_Z (Z.of_nat m) + 1.
Proof. rewrite Nat2Z.inj_succ. unfold Z.succ. now rewrite inject_Z_plus. Qed.

Lemma nat_above (q : Q) : exists m : nat, q <= 0.015 * inject_Z (Z.of_nat m).
Proof.
  destruct (Qarchimedean (q / 0.015)) as [p Hp].
  exists (Pos.to_nat p). rewrite positive_nat_Z.
  assert (H : q / 0.015 < inject_Z (Z.pos p)) by exact Hp.
  assert (Hq : q == 0.015 * (q / 0.015)) by (field).
  rewrite Hq at 1. nra.
Qed.

(** Falling: with no upward velocity the height shrinks by at least
    0.015 per pass. *)
Lemma falling_ends (m : nat) (n : Newspaper.t) (gs : list Game.t) :
  airborne n ->
  THREE.y (Newspaper.velocity n) <= 0 ->
  THREE.y (Newspaper.position n) <= 0.05 + 0.015 * inject_Z (Z.of_nat m) ->
  (S m <= length gs)%nat ->
  Newspaper.thrown (updatedOver gs n) = false.
Proof.
  revert n gs. induction m as [|m IH]; intros n gs Hair Hvy Hy Hlen;
    (destruct gs as [|g gs]; [cbn in Hlen; lia|]);
    rewrite updatedOver_cons;
    destruct (updated_airborne g n Hair) as [Hrest|[-> Hup]];
    try (now apply updatedOver_grounded);
    destruct (glide_fields n) as (Ht & Hd & Hvy' & Hy').
  - exfalso. rewrite Hy' in Hup. change (inject_Z (Z.of_nat 0)) with 0 in Hy. lra.
  - apply IH.
    + destruct Hair. split; congruence.
    + rewrite Hvy'. lra.
    + rewrite Hy'. rewrite of_nat_succ in Hy. lra.
    + cbn in Hlen. lia.
Qed.

(** Rising: the upward velocity shrinks by 0.015 per pass. *)
Lemma rising_ends (m : nat) (n : Newspaper.t) :
  airborne n ->
  THREE.y (Newspaper.velocity n) <= 0.015 * inject_Z (Z.of_nat m) ->
  exists K : nat, forall gs, (K <= length gs)%nat ->
    Newspaper.thrown (updatedOver gs n) = false.
Proof.
  revert n. induction m as [|m IH]; intros n Hair Hvy.
  - destruct (nat_above (THREE.y (Newspaper.position n) - 0.05)) as [m2 Hm2].
    exists (S m2). intros gs Hlen.
    apply (falling_ends m2 n gs Hair); [change (inject_Z (Z.of_nat 0)) with 0 in Hvy; lra|lra|exact Hlen].
  - destruct (glide_fields n) as (Ht & Hd & Hvy' & _).
    destruct (IH (glide n)) as [K HK].
    + destruct Hair. split; congruence.
    + rewrite Hvy'. rewrite of_nat_succ in Hvy. lra.
    + exists (S K). intros gs Hlen.
      destruct gs as [|g gs]; [cbn in Hlen; lia|].
      rewrite updatedOver_cons.
      destruct (updated_airborne g n Hair) as [Hrest|[-> _]].
      * now apply updatedOver_grounded.
      * apply HK. cbn in Hlen. lia.
Qed.

(** X17.  No newspaper flies for ever: for every newspaper in flight
    there is a number of frames after which it is no longer thrown,
    whatever the walls, the mailboxes and the porches of those frames. *)
Theorem flight_ends (n : Newspaper.t) :
  airborne n ->
  exists K : nat, forall gs, (K <= length gs)%nat ->
    Newspaper.thrown (updatedOver gs n) = false.
Proof.
  intros Hair. destruct (nat_above (THREE.y (Newspaper.velocity n))) as [m Hm].
  exact (rising_ends m n Hair Hm).
Qed.

Lemma flight_ends_witness :
  airborne low_throw /\
  exists K : nat, forall gs, (K <= length gs)%nat ->
    Newspaper.thrown (updatedOver gs low_throw) = false.
Proof.
  assert (Hair : airborne low_throw) by (split; reflexivity).
  split; [exact Hair|exact (flight_ends low_throw Hair)].
Defined.
